(** * Locale-aware number formatting (locales/intl.js)

    A shallow embedding of the number helpers of [intl.js]:
    [formatNumberInput], [formatNumber], [isValidInput], [prettifyNumber],
    [truncateDecimals], [formatToNativeNumber] and [setIntlLocale], together
    with the part of the JavaScript string library they call.

    JavaScript strings are modelled as lists of code units; a code unit is an
    [ascii] (the Latin-1 range).  A call that can throw returns a [result]. *)

From Stdlib Require Import Ascii String List ZArith Lia Bool Arith.
Import ListNotations.

Set Implicit Arguments.

(* ================================================================== *)
(** ** The JavaScript primitives used by intl.js *)
(* ================================================================== *)

Module JS.

Definition jsstring := list ascii.

(** String literals: [js "1,234"]. *)
Definition js (s : string) : jsstring := list_ascii_of_string s.

(** *** Completion records: a value or a thrown exception *)

Inductive exn : Type :=
| TypeError   (* property access on undefined *)
| SyntaxError (* invalid regular expression *)
| Error (message : jsstring).

Inductive result (A : Type) : Type :=
| Ok (a : A)
| Throw (e : exn).

Arguments Ok {A} a.
Arguments Throw {A} e.

Definition bind {A B : Type} (r : result A) (k : A -> result B) : result B :=
  match r with
  | Ok a => k a
  | Throw e => Throw e
  end.

Definition returns {A : Type} (r : result A) : bool :=
  match r with Ok _ => true | Throw _ => false end.

(** *** Truthiness *)

(** A string is truthy when it is not empty. *)
Definition truthyStr (s : jsstring) : bool :=
  match s with [] => false | _ :: _ => true end.

(** A possibly-undefined string is truthy when defined and not empty. *)
Definition truthyOpt (o : option jsstring) : bool :=
  match o with Some s => truthyStr s | None => false end.

(** An (integer) number is truthy when it is not zero. *)
Definition truthyNum (n : Z) : bool := negb (n =? 0)%Z.

(** *** String.prototype methods *)

Definition eqs (a b : jsstring) : bool :=
  if list_eq_dec ascii_dec a b then true else false.

Fixpoint startsWith (p s : jsstring) : bool :=
  match p, s with
  | [], _ => true
  | _ :: _, [] => false
  | a :: p', b :: s' => Ascii.eqb a b && startsWith p' s'
  end.

Definition endsWith (p s : jsstring) : bool := startsWith (rev p) (rev s).

Fixpoint includes (p s : jsstring) : bool :=
  startsWith p s ||
  match s with
  | [] => false
  | _ :: s' => includes p s'
  end.

(** [s.substr(start, length)] for a non-negative [start]. *)
Definition substr (s : jsstring) (start len : nat) : jsstring :=
  firstn len (skipn start s).

(** The index a relative argument of [slice] denotes in a string of length
    [len]: negative arguments count from the end, and the result is clamped
    to [0 .. len]. *)
Definition relIndex (len : nat) (k : Z) : nat :=
  if (k <? 0)%Z then Z.to_nat (Z.max (Z.of_nat len + k) 0)
  else Nat.min (Z.to_nat k) len.

(** [s.slice(start, end)]; [end] is [None] when it is undefined. *)
Definition slice (s : jsstring) (start : Z) (stop : option Z) : jsstring :=
  let len := length s in
  let from := relIndex len start in
  let to := match stop with Some e => relIndex len e | None => len end in
  firstn (to - from) (skipn from s).

(** [s.split(sep)] for a non-empty [sep]: [skip] counts the code units of a
    separator occurrence that are still to be passed over. *)
Fixpoint splitFrom (sep : jsstring) (skip : nat) (s : jsstring) : list jsstring :=
  match s with
  | [] => [[]]
  | c :: s' =>
      match skip with
      | S k => splitFrom sep k s'
      | O =>
          if startsWith sep s then [] :: splitFrom sep (length sep - 1) s'
          else match splitFrom sep 0 s' with
               | h :: t => (c :: h) :: t
               | [] => [[c]]
               end
      end
  end.

(** [s.split(sep)]; an empty separator splits between code units. *)
Definition split (sep s : jsstring) : list jsstring :=
  match sep with
  | [] => map (fun c => [c]) s
  | _ :: _ => splitFrom sep 0 s
  end.

(** [s.replace(search, repl)] with a string pattern: the first occurrence
    only.  ([repl] holds no [$] in intl.js.) *)
Fixpoint replaceFirst (search repl s : jsstring) : jsstring :=
  if startsWith search s then repl ++ skipn (length search) s
  else match s with
       | [] => []
       | c :: s' => c :: replaceFirst search repl s'
       end.

(** [s.replace(/^0+/, '')]. *)
Fixpoint stripLeadingZeros (s : jsstring) : jsstring :=
  match s with
  | c :: s' => if Ascii.eqb c "0" then stripLeadingZeros s' else s
  | [] => []
  end.

(** A template literal prints an undefined value as "undefined". *)
Definition template (o : option jsstring) : jsstring :=
  match o with Some s => s | None => js "undefined" end.

(** *** Character classes *)

Definition code (c : ascii) : nat := nat_of_ascii c.

Definition isDigit (c : ascii) : bool := (48 <=? code c) && (code c <=? 57).

Definition isWordChar (c : ascii) : bool :=
  isDigit c
  || ((65 <=? code c) && (code c <=? 90))
  || ((97 <=? code c) && (code c <=? 122))
  || (code c =? 95).

(** WhiteSpace and LineTerminator code units below 256: TAB, LF, VT, FF, CR,
    SP, NBSP. *)
Definition isWhiteSpace (c : ascii) : bool :=
  ((9 <=? code c) && (code c <=? 13)) || (code c =? 32) || (code c =? 160).

(** *** new RegExp('\\' + sep, 'g') *)

Inductive RegExp : Type :=
| RxChar (c : ascii)                  (* exactly this code unit *)
| RxClass (p : ascii -> bool)         (* one code unit of a class *)
| RxAssert                            (* zero-width: \b, \B *)
| RxSeq (w : jsstring)                (* a fixed sequence of code units *)
| RxHost (strip : jsstring -> jsstring). (* compiled by the host engine *)

(** The pattern [\c] for a single code unit [c] (non-unicode mode, no
    capture groups): class escapes, control escapes, assertions, legacy octal
    escapes, the lone [\c], and identity escapes for everything else. *)
Definition atomEscape (c : ascii) : RegExp :=
  if Ascii.eqb c "d" then RxClass isDigit
  else if Ascii.eqb c "D" then RxClass (fun x => negb (isDigit x))
  else if Ascii.eqb c "w" then RxClass isWordChar
  else if Ascii.eqb c "W" then RxClass (fun x => negb (isWordChar x))
  else if Ascii.eqb c "s" then RxClass isWhiteSpace
  else if Ascii.eqb c "S" then RxClass (fun x => negb (isWhiteSpace x))
  else if Ascii.eqb c "b" || Ascii.eqb c "B" then RxAssert
  else if Ascii.eqb c "t" then RxChar "009"
  else if Ascii.eqb c "n" then RxChar "010"
  else if Ascii.eqb c "v" then RxChar "011"
  else if Ascii.eqb c "f" then RxChar "012"
  else if Ascii.eqb c "r" then RxChar "013"
  else if (48 <=? code c) && (code c <=? 55) then RxChar (ascii_of_nat (code c - 48))
  else if Ascii.eqb c "c" then RxSeq ["\"%char; "c"%char]
  else RxChar c.

(** Deleting every non-overlapping occurrence of [w], left to right. *)
Fixpoint removeSeq (w : jsstring) (skip : nat) (s : jsstring) : jsstring :=
  match s with
  | [] => []
  | c :: s' =>
      match skip with
      | S k => removeSeq w k s'
      | O =>
          if startsWith w s then removeSeq w (length w - 1) s'
          else c :: removeSeq w 0 s'
      end
  end.

(** [s.replace(re, '')] for a global [re]. *)
Definition replaceAllEmpty (re : RegExp) (s : jsstring) : jsstring :=
  match re with
  | RxChar c => filter (fun x => negb (Ascii.eqb c x)) s
  | RxClass p => filter (fun x => negb (p x)) s
  | RxAssert => s
  | RxSeq [] => s
  | RxSeq w => removeSeq w 0 s
  | RxHost strip => strip s
  end.

(** *** ToNumber on strings (the unary [+]) *)

(** What [+s] is: NaN, an infinity, or a finite number.  [isNaN] only asks
    for the first, so the numeric value itself is never needed. *)
Inductive NumClass : Type := IsNaN | IsInfinite | IsFinite.

Fixpoint takeWhile (p : ascii -> bool) (s : jsstring) : jsstring :=
  match s with
  | c :: s' => if p c then c :: takeWhile p s' else []
  | [] => []
  end.

Fixpoint dropWhile (p : ascii -> bool) (s : jsstring) : jsstring :=
  match s with
  | c :: s' => if p c then dropWhile p s' else s
  | [] => []
  end.

(** Leading and trailing StrWhiteSpace is ignored. *)
Definition trim (s : jsstring) : jsstring :=
  rev (dropWhile isWhiteSpace (rev (dropWhile isWhiteSpace s))).

(** The value of a digit in a radix up to 16, if it is one. *)
Definition digitValue (radix : Z) (c : ascii) : option Z :=
  let n := code c in
  let v := if (48 <=? n) && (n <=? 57) then Some (Z.of_nat (n - 48))
           else if (97 <=? n) && (n <=? 102) then Some (Z.of_nat (n - 87))
           else if (65 <=? n) && (n <=? 70) then Some (Z.of_nat (n - 55))
           else None in
  match v with
  | Some d => if (d <? radix)%Z then Some d else None
  | None => None
  end.

(** The mathematical value of a string of digits; [None] when some code unit
    is not a digit of the radix. *)
Fixpoint digitsValue (radix : Z) (acc : Z) (ds : jsstring) : option Z :=
  match ds with
  | [] => Some acc
  | c :: ds' =>
      match digitValue radix c with
      | Some d => digitsValue radix (radix * acc + d)%Z ds'
      | None => None
      end
  end.

(** Magnitudes from 2^1024 - 2^970 on round to Infinity. *)
Definition overflowBound : Z := (2 ^ 1024 - 2 ^ 970)%Z.

(** The class of the mathematical value [m * 10^e], [0 <= m]. *)
Definition classMagnitude (m e : Z) : NumClass :=
  if (0 <=? e)%Z
  then if (overflowBound <=? m * 10 ^ e)%Z then IsInfinite else IsFinite
  else if (overflowBound * 10 ^ (- e) <=? m)%Z then IsInfinite else IsFinite.

(** NonDecimalIntegerLiteral: the digits after [0x], [0o] or [0b]. *)
Definition classNonDecimal (radix : Z) (ds : jsstring) : NumClass :=
  match ds with
  | [] => IsNaN
  | _ :: _ =>
      match digitsValue radix 0 ds with
      | Some m => classMagnitude m 0
      | None => IsNaN
      end
  end.

(** StrUnsignedDecimalLiteral: [Infinity], or digits with an optional
    fraction and an optional exponent; at least one digit before the
    exponent. *)
Definition classUnsignedDecimal (s : jsstring) : NumClass :=
  if eqs s (js "Infinity") then IsInfinite
  else
    let ip := takeWhile isDigit s in
    let r1 := dropWhile isDigit s in
    let '(fp, r2) :=
      match r1 with
      | c :: r => if Ascii.eqb c "." then (takeWhile isDigit r, dropWhile isDigit r)
                  else ([], r1)
      | [] => ([], r1)
      end in
    if negb (truthyStr ip) && negb (truthyStr fp) then IsNaN
    else
      match digitsValue 10 0 (ip ++ fp) with
      | None => IsNaN
      | Some m =>
          match r2 with
          | [] => classMagnitude m (- Z.of_nat (length fp))
          | c :: r3 =>
              if Ascii.eqb c "e" || Ascii.eqb c "E" then
                let '(neg, r4) :=
                  match r3 with
                  | x :: r => if Ascii.eqb x "-" then (true, r)
                              else if Ascii.eqb x "+" then (false, r)
                              else (false, r3)
                  | [] => (false, r3)
                  end in
                match r4, digitsValue 10 0 r4 with
                | _ :: _, Some x =>
                    classMagnitude m ((if neg then - x else x) - Z.of_nat (length fp))
                | _, _ => IsNaN
                end
              else IsNaN
          end
      end.

(** StrDecimalLiteral: an optional sign before the unsigned literal. *)
Definition classDecimal (s : jsstring) : NumClass :=
  match s with
  | c :: r => if Ascii.eqb c "+" || Ascii.eqb c "-" then classUnsignedDecimal r
              else classUnsignedDecimal s
  | [] => classUnsignedDecimal s
  end.

(** StringToNumber: the empty (or all-blank) string is [+0]. *)
Definition ToNumber (s : jsstring) : NumClass :=
  match trim s with
  | [] => IsFinite
  | z :: x :: ds =>
      if Ascii.eqb z "0" then
        if Ascii.eqb x "x" || Ascii.eqb x "X" then classNonDecimal 16 ds
        else if Ascii.eqb x "o" || Ascii.eqb x "O" then classNonDecimal 8 ds
        else if Ascii.eqb x "b" || Ascii.eqb x "B" then classNonDecimal 2 ds
        else classDecimal (z :: x :: ds)
      else classDecimal (z :: x :: ds)
  | t => classDecimal t
  end.

Definition isNaN (n : NumClass) : bool :=
  match n with IsNaN => true | _ => false end.

Definition isFinite (n : NumClass) : bool :=
  match n with IsFinite => true | _ => false end.

End JS.


(* ================================================================== *)
(** ** locales/intl.js *)
(* ================================================================== *)

Module Intl.

Import JS.

Record IntlLocaleType : Type := {
  localeIdentifier : jsstring;  (* Like en_US or en-US *)
  decimalSeparator : jsstring;
  groupingSeparator : jsstring
}.

(** [toFixed] is [None] when the property is absent; an absent [noGrouping]
    is [false], the code only tests it for truth. *)
Record IntlNumberFormatOptionsType : Type := {
  toFixed : option Z;
  noGrouping : bool
}.

Definition EN_US_LOCALE : IntlLocaleType := {|
  localeIdentifier := js "en_US";
  decimalSeparator := js ".";
  groupingSeparator := js ","
|}.

Definition NATIVE_DECIMAL_SEPARATOR : jsstring := js ".".
Definition NUMBER_GROUP_SIZE : nat := 3.



Section Collaborators.

(** [toFixed] of the package biggystring, which is not part of the sources:
    [biggystring_toFixed x minPrecision maxPrecision]. *)
Variable biggystring_toFixed : jsstring -> Z -> Z -> result jsstring.

(** The host's regular-expression compiler on the sources ['\\' + sep] for a
    separator of two or more code units; the patterns for one code unit are
    [atomEscape]. *)
Variable hostRegExp : jsstring -> result (jsstring -> jsstring).

(** [new RegExp('\\' + sep, 'g')]; a lone backslash is not a pattern. *)
Definition groupingSeparatorRegExp (sep : jsstring) : result RegExp :=
  match sep with
  | [] => Throw SyntaxError
  | [c] => Ok (atomEscape c)
  | _ :: _ :: _ => bind (hostRegExp sep) (fun strip => Ok (RxHost strip))
  end.

(** The loop
    [for (; i < len; i += NUMBER_GROUP_SIZE) intPart += sep + integers.substr(i, NUMBER_GROUP_SIZE)];
    [fuel] bounds the number of iterations. *)
Fixpoint groupLoop (fuel : nat) (sep integers : jsstring) (len i : nat)
    (intPart : jsstring) : jsstring :=
  match fuel with
  | O => intPart
  | S fuel' =>
      if i <? len then
        groupLoop fuel' sep integers len (i + NUMBER_GROUP_SIZE)
          (intPart ++ sep ++ substr integers i NUMBER_GROUP_SIZE)
      else intPart
  end.

(** The grouped integer part: lines 70-74 of [formatNumber]. *)
Definition groupIntegers (sep integers : jsstring) : jsstring :=
  let len := length integers in
  let i := if len mod NUMBER_GROUP_SIZE =? 0 then NUMBER_GROUP_SIZE
           else len mod NUMBER_GROUP_SIZE in
  groupLoop len sep integers len i (substr integers 0 i).

(** [formatNumber(number, options)] on a string [number]. *)
Definition formatNumber (locale : IntlLocaleType) (number : jsstring)
    (options : option IntlNumberFormatOptionsType) : result jsstring :=
  bind
    match options with
    | Some o =>
        match toFixed o with
        | Some n => if truthyNum n then biggystring_toFixed number n n else Ok number
        | None => Ok number
        end
    | None => Ok number
    end
    (fun stringify =>
       let parts := split NATIVE_DECIMAL_SEPARATOR stringify in
       let decimals := nth_error parts 1 in
       match nth_error parts 0 with
       | None => Throw TypeError
       | Some integers =>
           let intPart :=
             match options with
             | Some o => if noGrouping o then integers
                         else groupIntegers (groupingSeparator locale) integers
             | None => groupIntegers (groupingSeparator locale) integers
             end in
           Ok (if truthyOpt decimals
               then intPart ++ decimalSeparator locale ++ template decimals
               else intPart)
       end).

(** [Object.assign(_options, options)]. *)
Definition assignOptions (_options : IntlNumberFormatOptionsType)
    (options : option IntlNumberFormatOptionsType) : IntlNumberFormatOptionsType :=
  match options with
  | None => _options
  | Some o =>
      {| toFixed := match toFixed o with Some n => Some n | None => toFixed _options end;
         noGrouping := noGrouping o |}
  end.

(** [formatNumberInput(input, options)]. *)
Definition formatNumberInput (locale : IntlLocaleType) (input : jsstring)
    (options : option IntlNumberFormatOptionsType) : result jsstring :=
  if endsWith (js ".") input || endsWith (js ",") input then
    bind (formatNumber locale (slice input 0 (Some (-1)%Z)) None)
      (fun r => Ok (r ++ decimalSeparator locale))
  else
    let inferred :=
      if includes NATIVE_DECIMAL_SEPARATOR input then
        match nth_error (split NATIVE_DECIMAL_SEPARATOR input) 1 with
        | Some decimalPart =>
            if truthyStr decimalPart then Some (Z.of_nat (length decimalPart)) else None
        | None => None
        end
      else None in
    formatNumber locale input
      (Some (assignOptions {| toFixed := inferred; noGrouping := false |} options)).

(** The shared first step of [isValidInput] and [formatToNativeNumber]: a
    trailing '.' or ',' becomes the locale's decimal separator. *)
Definition normalizeTrailing (locale : IntlLocaleType) (value : jsstring) : jsstring :=
  if endsWith (js ".") value || endsWith (js ",") value
  then slice value 0 (Some (-1)%Z) ++ decimalSeparator locale
  else value.

(** [value.replace(groupingSeparatorRegExp, '').replace(decimalSeparator, '.')]. *)
Definition standardize (locale : IntlLocaleType) (re : RegExp) (value : jsstring) : jsstring :=
  replaceFirst (decimalSeparator locale) (js ".") (replaceAllEmpty re value).

(** [isValidInput(value)]. *)
Definition isValidInput (locale : IntlLocaleType) (value : jsstring) : result bool :=
  bind (groupingSeparatorRegExp (groupingSeparator locale)) (fun re =>
    if eqs value (decimalSeparator locale) then Ok true
    else
      let standardized := standardize locale re (normalizeTrailing locale value) in
      Ok (negb (isNaN (ToNumber standardized)))).

(** [prettifyNumber(input)]. *)
Definition prettifyNumber (locale : IntlLocaleType) (input : jsstring) : jsstring :=
  let out := stripLeadingZeros input in
  if startsWith (decimalSeparator locale) out then js "0" ++ out else out.

(** [truncateDecimals(input, precision, allowBlank)]; [precision] is [None]
    when it is not passed. *)
Definition truncateDecimals (locale : IntlLocaleType) (input : jsstring)
    (precision : option Z) (allowBlank : bool) : result jsstring :=
  let input := if eqs input [] then (if allowBlank then js "" else js "0") else input in
  if negb (includes (decimalSeparator locale) input) then Ok input
  else
    let parts := split (decimalSeparator locale) input in
    match nth_error parts 1 with
    | None => Throw TypeError
    | Some decimals =>
        Ok (template (nth_error parts 0) ++ decimalSeparator locale ++ slice decimals 0 precision)
    end.

(** [formatToNativeNumber(value)]. *)
Definition formatToNativeNumber (locale : IntlLocaleType) (value : jsstring) : result jsstring :=
  let value := normalizeTrailing locale value in
  bind (groupingSeparatorRegExp (groupingSeparator locale)) (fun re =>
    Ok (standardize locale re value)).

End Collaborators.

(** *** The module-level [locale] slot and [setIntlLocale] *)

(** The argument of [setIntlLocale]: a field is [None] when it is missing. *)
Record LocaleDescriptor : Type := {
  descIdentifier : option jsstring;
  descDecimal : option jsstring;
  descGrouping : option jsstring
}.

(** The module state: the [locale] variable, and what was written to the
    console (newest first). *)
Record World : Type := {
  locale : IntlLocaleType;
  console : list jsstring
}.

Definition initialWorld : World := {| locale := EN_US_LOCALE; console := [] |}.

Definition warning : jsstring :=
  js "Cannot recognize user locale preferences. Default will be used.".

(** [setIntlLocale(l)]; [l] is [None] for null or undefined. *)
Definition setIntlLocale (l : option LocaleDescriptor) (w : World) : result unit * World :=
  match l with
  | None => (Throw (Error (js "Please select locale for internationalization")), w)
  | Some d =>
      let fallback :=
        (Ok tt, {| locale := EN_US_LOCALE; console := warning :: console w |}) in
      match descDecimal d, descGrouping d, descIdentifier d with
      | Some dec, Some grp, Some ident =>
          if negb (truthyStr dec) || negb (truthyStr grp) || negb (truthyStr ident)
          then fallback
          else (Ok tt,
                {| locale := {| localeIdentifier := ident;
                                decimalSeparator := dec;
                                groupingSeparator := grp |};
                   console := console w |})
      | _, _, _ => fallback
      end
  end.

(** A descriptor with a missing (undefined or empty) required field. *)
Definition missingField (d : LocaleDescriptor) : bool :=
  negb (truthyOpt (descDecimal d)) || negb (truthyOpt (descGrouping d))
  || negb (truthyOpt (descIdentifier d)).

End Intl.

Import JS Intl.

(* ================================================================== *)
(** ** Definitions used to state the properties *)
(* ================================================================== *)

From Stdlib Require DecimalString.

(** The decimal digits of a non-negative integer. *)
Definition digitsOfZ (z : Z) : jsstring :=
  js (DecimalString.NilZero.string_of_uint (N.to_uint (Z.to_N z))).

(** Modelled from the spec: the fixed-point decimal helper ([toFixed] of the
    external package biggystring, which the sources only import): it "takes
    a decimal string and a target precision and returns a decimal string
    rounded to exactly that many places".  Ties round away from zero.  Text
    that is not a decimal string is outside that contract: the model raises
    on it. *)
Definition toFixedModel (x : jsstring) (minPrecision maxPrecision : Z) : result jsstring :=
  let '(neg, body) :=
    match x with
    | c :: r => if Ascii.eqb c "-" then (true, r) else (false, x)
    | [] => (false, x)
    end in
  let ip := takeWhile isDigit body in
  let '(wellFormed, fp) :=
    match dropWhile isDigit body with
    | [] => (truthyStr ip, [])
    | c :: r => (Ascii.eqb c "." && forallb isDigit r && truthyStr (ip ++ r), r)
    end in
  match wellFormed, digitsValue 10 0 (ip ++ fp) with
  | true, Some m =>
      let n := Z.to_nat maxPrecision in
      let k := length fp in
      let scaled :=
        if k <=? n then (m * 10 ^ Z.of_nat (n - k))%Z
        else ((m + 5 * 10 ^ Z.of_nat (k - n - 1)) / 10 ^ Z.of_nat (k - n))%Z in
      let ds := digitsOfZ scaled in
      let ds := repeat "0"%char (S n - length ds) ++ ds in
      let cut := length ds - n in
      Ok ((if neg then js "-" else []) ++ firstn cut ds
          ++ (if n =? 0 then [] else js "." ++ skipn cut ds))
  | _, _ => Throw (Error (js "Invalid number"))
  end.

(** A canonical numeric string: an optional leading '-', digits, and
    optionally a '.' followed by at least one digit. *)
Definition canonicalDecimal (s : jsstring) : bool :=
  let body :=
    match s with
    | c :: r => if Ascii.eqb c "-" then r else s
    | [] => s
    end in
  match dropWhile isDigit body with
  | [] => true
  | c :: fp => Ascii.eqb c "." && truthyStr fp && forallb isDigit fp
  end.

(** A code unit that can occur in a canonical numeric string before its
    decimal point. *)
Definition numericChar (c : ascii) : bool := isDigit c || Ascii.eqb c "-".

(** The escaped pattern [\c] matches the code unit [c] and nothing else. *)
Definition literalEscape (c : ascii) : bool :=
  match atomEscape c with
  | RxChar x => Ascii.eqb x c
  | _ => false
  end.

(** The grouping rule in the words of the spec: groups of three from the
    right, the leftmost of [len mod 3] code units, or of three when that
    is 0. *)
Fixpoint chunks3 (s : jsstring) : list jsstring :=
  match s with
  | a :: b :: c :: r => [a; b; c] :: chunks3 r
  | [] => []
  | r => [r]
  end.

Definition leftmostSize (len : nat) : nat :=
  if len mod 3 =? 0 then 3 else len mod 3.

Definition specGroups (integers : jsstring) : list jsstring :=
  let k := leftmostSize (length integers) in
  firstn k integers :: chunks3 (skipn k integers).

Definition joinWith (sep : jsstring) (groups : list jsstring) : jsstring :=
  match groups with
  | [] => []
  | g :: rest => g ++ flat_map (fun x => sep ++ x) rest
  end.

(** The text before the first '.', and the text between the first and the
    second '.' (or the end), as [split] followed by destructuring finds
    them. *)
Definition beforeSep (c : ascii) (s : jsstring) : jsstring :=
  takeWhile (fun x => negb (Ascii.eqb c x)) s.

Definition afterSep (c : ascii) (s : jsstring) : option jsstring :=
  match dropWhile (fun x => negb (Ascii.eqb c x)) s with
  | [] => None
  | _ :: r => Some (beforeSep c r)
  end.

(** Locales used in the examples. *)
Definition DE_LOCALE : IntlLocaleType := {|
  localeIdentifier := js "de_DE";
  decimalSeparator := js ",";
  groupingSeparator := js "."
|}.

Definition FR_LOCALE : IntlLocaleType := {|
  localeIdentifier := js "fr_FR";
  decimalSeparator := js ",";
  groupingSeparator := js " "
|}.

Definition noOptions : option IntlNumberFormatOptionsType := None.

Definition withToFixed (n : Z) : option IntlNumberFormatOptionsType :=
  Some {| toFixed := Some n; noGrouping := false |}.

(** A host whose regular-expression compiler rejects every pattern longer
    than one escaped code unit; the one-unit patterns never reach it. *)
Definition strictHost : jsstring -> result (jsstring -> jsstring) :=
  fun _ => Throw SyntaxError.

(** [formatToNativeNumber(formatNumber(s))]. *)
Definition roundTrip (biggystring_toFixed : jsstring -> Z -> Z -> result jsstring)
    (hostRegExp : jsstring -> result (jsstring -> jsstring))
    (locale : IntlLocaleType) (s : jsstring) : result jsstring :=
  bind (formatNumber biggystring_toFixed locale s noOptions)
       (formatToNativeNumber hostRegExp locale).

(** The decimals as [formatNumber] appends them: nothing when the second
    part of the split is undefined or empty. *)
Definition decimalsSuffix (locale : IntlLocaleType) (number : jsstring) : jsstring :=
  match afterSep "." number with
  | Some (x :: d) => decimalSeparator locale ++ x :: d
  | _ => []
  end.

(* ================================================================== *)
(** ** The rest of intl.js, and the callers in the scenes *)
(* ================================================================== *)

(** The boot code of intl.js:
    [const [firstLocale = { languageTag: 'en_US' }] = getLocales()],
    [setIntlLocale({ localeIdentifier: firstLocale.languageTag, ...numberFormat })].
    [languageTags] are the tags of the host's locales, in order;
    [hostDecimal] and [hostGrouping] are the host's number format
    settings. *)
Definition bootLocale (languageTags : list jsstring) (hostDecimal hostGrouping : jsstring)
  : result unit * World :=
  let firstLocale :=
    match nth_error languageTags 0 with
    | Some tag => tag
    | None => js "en_US"
    end in
  setIntlLocale
    (Some {| descIdentifier := Some firstLocale;
             descDecimal := Some hostDecimal;
             descGrouping := Some hostGrouping |})
    initialWorld.

(** A run of [setIntlLocale] calls; a call that throws leaves the state as
    it was, and the next call goes on from there. *)
Definition setIntlLocaleAll (calls : list (option LocaleDescriptor)) (w : World) : World :=
  fold_left (fun state l => snd (setIntlLocale l state)) calls w.

(** The slot holds three non-empty strings. *)
Definition completeLocale (l : IntlLocaleType) : bool :=
  truthyStr (decimalSeparator l) && truthyStr (groupingSeparator l)
  && truthyStr (localeIdentifier l).

(** [locale.localeIdentifier.replace('_', '-')], the tag that
    [formatExpDate] and [formatTime] hand to [Intl.DateTimeFormat]. *)
Definition localeTag (l : IntlLocaleType) : jsstring :=
  replaceFirst (js "_") (js "-") (localeIdentifier l).

(** Options with [noGrouping] set and nothing else. *)
Definition withNoGrouping : option IntlNumberFormatOptionsType :=
  Some {| toFixed := None; noGrouping := true |}.

(** The code units of canonical numeric strings: digits, '-' and '.'. *)
Definition canonicalChar (c : ascii) : bool :=
  isDigit c || Ascii.eqb c "-" || Ascii.eqb c ".".

(** *** WalletList.ui.js: getNewOrder *)

Module WalletList.

Section Arrays.

Variable A : Type.

(** An array element is a value or [undefined]. *)
Definition jsarray : Type := list (option A).

(** [arr.splice(start, deleteCount, ...items)]: the removed elements and
    the array afterwards. *)
Definition splice (arr : jsarray) (start deleteCount : Z) (items : jsarray)
  : jsarray * jsarray :=
  let len := length arr in
  let actualStart := relIndex len start in
  let actualDeleteCount :=
    Nat.min (Z.to_nat (Z.max deleteCount 0)) (len - actualStart) in
  (firstn actualDeleteCount (skipn actualStart arr),
   firstn actualStart arr ++ items ++ skipn (actualStart + actualDeleteCount) arr).

(** [removed[0]]: undefined when nothing was removed. *)
Definition first (removed : jsarray) : option A :=
  match nth_error removed 0 with
  | Some v => v
  | None => None
  end.

(** [getNewOrder(order, { to, from })]. *)
Definition getNewOrder (order : jsarray) (to from : Z) : jsarray :=
  let newOrder := [] ++ order in
  let '(removed, newOrder) := splice newOrder from 1 [] in
  snd (splice newOrder to 0 [first removed]).

End Arrays.

End WalletList.

(** *** The send-confirmation actions: BITPAY.merchantName *)

Module SendConfirmation.

Definition merchantSeparator : jsstring := js " for merchant ".

(** [const [_, merchantName] = memo.split(' for merchant '); return merchantName];
    [None] is undefined. *)
Definition merchantName (memo : jsstring) : option jsstring :=
  nth_error (split merchantSeparator memo) 1.

End SendConfirmation.

(** No occurrence of [sep] starts at one of the first [n] positions of
    [s]. *)
Definition noMatchBefore (sep : jsstring) (n : nat) (s : jsstring) : bool :=
  forallb (fun i => negb (startsWith sep (skipn i s))) (seq 0 n).

(** *** TransactionDetailsScene.js: the recipient addresses of [render] *)

Module TransactionDetails.

Definition newline : jsstring := ["010"%char].

(** The loop over [spendTargets]; an element is the [publicAddress] of a
    target, undefined when the target has none.  Reading past the array
    would be a property access on undefined. *)
Fixpoint recipientsLoop (fuel : nat) (spendTargets : list (option jsstring))
    (i : nat) (recipientsAddresses : jsstring) : result jsstring :=
  match fuel with
  | O => Ok recipientsAddresses
  | S fuel' =>
      if i <? length spendTargets then
        let newLine := if i + 1 <? length spendTargets then newline else js "" in
        match nth_error spendTargets i with
        | None => Throw TypeError
        | Some publicAddress =>
            recipientsLoop fuel' spendTargets (i + 1)
              (recipientsAddresses ++ template publicAddress ++ newLine)
        end
      else Ok recipientsAddresses
  end.

(** [recipientsAddresses] after the loop; [spendTargets] is [None] when the
    transaction has none. *)
Definition recipientsAddresses (spendTargets : option (list (option jsstring)))
  : result jsstring :=
  match spendTargets with
  | Some targets => recipientsLoop (length targets) targets 0 (js "")
  | None => Ok (js "")
  end.

(** [Array.prototype.toString] on an array of strings: [join(',')]. *)
Definition arrayToString (entries : list jsstring) : jsstring :=
  joinWith (js ",") entries.

(** The callback of [spendTargets.map] in [createExchangeDataString], run
    over the array from [index] on; [len] is [spendTargets.length]. *)
Fixpoint exchangeEntries (newline : jsstring) (len index : nat)
    (spendTargets : list (option jsstring)) : list jsstring :=
  match spendTargets with
  | [] => []
  | publicAddress :: rest =>
      (template publicAddress ++ (if negb (index + 1 =? len) then newline else js ""))
      :: exchangeEntries newline len (index + 1) rest
  end.

(** [exchangeAddresses] of [createExchangeDataString(newline)]. *)
Definition exchangeAddresses (spendTargets : list (option jsstring))
    (newline : jsstring) : jsstring :=
  if 0 <? length spendTargets
  then arrayToString (exchangeEntries newline (length spendTargets) 0 spendTargets)
  else js "".

End TransactionDetails.

(** *** Where the fixed-point helper is called *)




(* ================================================================== *)
(** ** Facts about the string primitives *)
(* ================================================================== *)

Section StringFacts.

Implicit Types (s t p : jsstring) (c d x : ascii).

Lemma eqs_true a b : eqs a b = true <-> a = b.
Proof.
  unfold eqs. destruct (list_eq_dec ascii_dec a b); split; congruence.
Qed.


Lemma startsWith_single c s :
  startsWith [c] s = match s with x :: _ => Ascii.eqb c x | [] => false end.
Proof. destruct s; simpl; [reflexivity | apply andb_true_r]. Qed.

Lemma endsWith_nil c : endsWith [c] [] = false.
Proof. reflexivity. Qed.

Lemma endsWith_snoc c s x : endsWith [c] (s ++ [x]) = Ascii.eqb c x.
Proof.
  unfold endsWith. rewrite rev_app_distr. simpl. apply andb_true_r.
Qed.

Lemma endsWith_app c s t : t <> [] -> endsWith [c] (s ++ t) = endsWith [c] t.
Proof.
  intros Ht. destruct (exists_last Ht) as (t' & x & ->).
  rewrite app_assoc, !endsWith_snoc. reflexivity.
Qed.

Lemma includes_single c s : includes [c] s = existsb (Ascii.eqb c) s.
Proof.
  induction s as [|x s IH]; [reflexivity|].
  cbn [includes existsb]. rewrite startsWith_single, IH. reflexivity.
Qed.

(** [split] never returns the empty array for a non-empty separator. *)
Lemma splitFrom_cons sep k s : exists g gs, splitFrom sep k s = g :: gs.
Proof.
  revert k. induction s as [|x s IH]; intros k; simpl.
  - now exists [], [].
  - destruct k as [|k]; [|apply IH].
    destruct (startsWith sep (x :: s)).
    + now exists [], (splitFrom sep (length sep - 1) s).
    + destruct (IH 0) as (h & t & ->). now exists (x :: h), t.
Qed.

(** With a one-unit separator, [split] cuts at every occurrence. *)
Lemma splitFrom_single c s :
  splitFrom [c] 0 s =
  beforeSep c s ::
  match dropWhile (fun x => negb (Ascii.eqb c x)) s with
  | [] => []
  | _ :: r => splitFrom [c] 0 r
  end.
Proof.
  induction s as [|x s IH]; [reflexivity|].
  cbn [splitFrom]. rewrite startsWith_single. unfold beforeSep. cbn [takeWhile dropWhile].
  destruct (Ascii.eqb c x); cbn [negb length Nat.sub].
  - reflexivity.
  - rewrite IH. reflexivity.
Qed.

Lemma split_single_0 c s : nth_error (split [c] s) 0 = Some (beforeSep c s).
Proof. unfold split. rewrite splitFrom_single. reflexivity. Qed.

Lemma split_single_1 c s : nth_error (split [c] s) 1 = afterSep c s.
Proof.
  unfold split, afterSep. rewrite splitFrom_single. cbn [nth_error].
  destruct (dropWhile _ s) as [|y r]; [reflexivity|].
  rewrite splitFrom_single. reflexivity.
Qed.

(** A string that includes the separator splits into at least two parts. *)
Lemma includes_splitFrom sep s :
  sep <> [] -> includes sep s = true ->
  exists a b gs, splitFrom sep 0 s = a :: b :: gs.
Proof.
  intros Hsep. induction s as [|x s IH]; cbn [includes splitFrom].
  - destruct sep; [congruence | discriminate].
  - destruct (startsWith sep (x :: s)); cbn [orb]; intros H.
    + destruct (splitFrom_cons sep (length sep - 1) s) as (h & t & ->).
      now exists [], h, t.
    + destruct (IH H) as (a & b & t & ->). now exists (x :: a), b, t.
Qed.

Lemma takeWhile_dropWhile (f : ascii -> bool) s : takeWhile f s ++ dropWhile f s = s.
Proof.
  induction s as [|x s IH]; [reflexivity|]. simpl.
  destruct (f x); simpl; [now rewrite IH | reflexivity].
Qed.

Lemma takeWhile_all (f : ascii -> bool) s : forallb f s = true -> takeWhile f s = s.
Proof.
  induction s as [|x s IH]; [reflexivity|]. simpl.
  destruct (f x); simpl; [intros H; now rewrite IH | discriminate].
Qed.

Lemma dropWhile_all (f : ascii -> bool) s : forallb f s = true -> dropWhile f s = [].
Proof.
  induction s as [|x s IH]; [reflexivity|]. simpl.
  destruct (f x); simpl; [assumption | discriminate].
Qed.

Lemma takeWhile_forallb (f : ascii -> bool) s : forallb f (takeWhile f s) = true.
Proof.
  induction s as [|x s IH]; [reflexivity|]. simpl.
  destruct (f x) eqn:E; simpl; [now rewrite E | reflexivity].
Qed.

Lemma takeWhile_app_stop (f : ascii -> bool) s x t :
  forallb f s = true -> f x = false -> takeWhile f (s ++ x :: t) = s.
Proof.
  induction s as [|y s IH]; simpl; intros Hs Hx.
  - now rewrite Hx.
  - destruct (f y); [|discriminate]. simpl in Hs. now rewrite IH.
Qed.

Lemma dropWhile_app_stop (f : ascii -> bool) s x t :
  forallb f s = true -> f x = false -> dropWhile f (s ++ x :: t) = x :: t.
Proof.
  induction s as [|y s IH]; simpl; intros Hs Hx.
  - now rewrite Hx.
  - destruct (f y); [|discriminate]. simpl in Hs. now apply IH.
Qed.

(** Replacing the first occurrence of a one-unit pattern. *)
Lemma replaceFirst_absent c r s :
  forallb (fun x => negb (Ascii.eqb c x)) s = true -> replaceFirst [c] r s = s.
Proof.
  induction s as [|x s IH]; [reflexivity|].
  cbn [replaceFirst forallb]. rewrite startsWith_single.
  destruct (Ascii.eqb c x); cbn [negb andb]; [discriminate|].
  intros H. now rewrite IH.
Qed.

Lemma replaceFirst_first c r s t :
  forallb (fun x => negb (Ascii.eqb c x)) s = true ->
  replaceFirst [c] r (s ++ c :: t) = s ++ r ++ t.
Proof.
  induction s as [|x s IH].
  - intros _. cbn [app replaceFirst]. rewrite startsWith_single, Ascii.eqb_refl.
    reflexivity.
  - cbn [app replaceFirst forallb]. rewrite startsWith_single.
    destruct (Ascii.eqb c x); cbn [negb andb]; [discriminate|].
    intros H. now rewrite IH.
Qed.

Lemma slice_drop_last s x : slice (s ++ [x]) 0 (Some (-1)%Z) = s.
Proof.
  unfold slice, relIndex. cbn [Z.ltb Z.compare]. rewrite length_app. cbn [length].
  replace (Z.to_nat (Z.max (Z.of_nat (length s + 1) + -1) 0)) with (length s) by lia.
  cbn [Z.to_nat Nat.min skipn]. rewrite Nat.sub_0_r.
  rewrite firstn_app, firstn_all, Nat.sub_diag. cbn. apply app_nil_r.
Qed.

Lemma slice_prefix s (n : nat) : slice s 0 (Some (Z.of_nat n)) = firstn n s.
Proof.
  unfold slice, relIndex.
  destruct (Z.ltb_spec (Z.of_nat n) 0); [lia|].
  cbn [Z.ltb Z.compare Z.to_nat Nat.min skipn]. rewrite Nat.sub_0_r, Nat2Z.id.
  destruct (Nat.le_ge_cases n (length s)) as [H1|H1].
  - now rewrite Nat.min_l.
  - rewrite Nat.min_r by assumption. now rewrite !firstn_all2.
Qed.

End StringFacts.

(* ================================================================== *)
(** ** The grouping loop *)
(* ================================================================== *)

Section Grouping.

Implicit Types (s r sep integers : jsstring) (c g : ascii).

Lemma chunks3_step r :
  r <> [] -> chunks3 r = firstn 3 r :: chunks3 (skipn 3 r).
Proof.
  destruct r as [|a [|b [|c r]]]; intros H; try reflexivity. congruence.
Qed.

Lemma concat_chunks3_len n : forall r, length r <= n -> concat (chunks3 r) = r.
Proof.
  induction n as [|n IH]; intros r Hr.
  - destruct r; [reflexivity | simpl in Hr; lia].
  - destruct r as [|a [|b [|c r]]]; try reflexivity.
    cbn [chunks3 concat app]. rewrite IH; [reflexivity | simpl in Hr; lia].
Qed.

Lemma concat_chunks3 r : concat (chunks3 r) = r.
Proof. now apply concat_chunks3_len with (n := length r). Qed.

Lemma chunks3_sizes n : forall r,
  length r = 3 * n -> Forall (fun x => length x = 3) (chunks3 r).
Proof.
  induction n as [|n IH]; intros r Hr.
  - destruct r; [constructor | simpl in Hr; lia].
  - destruct r as [|a [|b [|c r]]]; simpl in Hr; try lia.
    cbn [chunks3]. constructor; [reflexivity | apply IH; lia].
Qed.

Lemma chunks3_nonempty n : forall r,
  length r <= n -> Forall (fun x => x <> []) (chunks3 r).
Proof.
  induction n as [|n IH]; intros r Hr.
  - destruct r; [constructor | simpl in Hr; lia].
  - destruct r as [|a [|b [|c r]]]; cbn [chunks3]; repeat constructor; try congruence.
    apply IH. simpl in Hr. lia.
Qed.

Lemma leftmostSize_bounds len : 1 <= leftmostSize len <= 3.
Proof.
  unfold leftmostSize. pose proof (Nat.mod_upper_bound len 3).
  destruct (Nat.eqb_spec (len mod 3) 0); lia.
Qed.

Lemma leftmostSize_le len : 0 < len -> leftmostSize len <= len.
Proof.
  unfold leftmostSize. intros H.
  pose proof (Nat.Div0.mod_le len 3). pose proof (Nat.div_mod_eq len 3).
  destruct (Nat.eqb_spec (len mod 3) 0); lia.
Qed.

Lemma leftmostSize_rest len : exists n, len - leftmostSize len = 3 * n.
Proof.
  unfold leftmostSize. pose proof (Nat.div_mod_eq len 3).
  destruct (Nat.eqb_spec (len mod 3) 0).
  - exists (len / 3 - 1). lia.
  - exists (len / 3). lia.
Qed.

(** The loop appends one separator and one group of three per remaining
    group, whenever the fuel covers the distance to [len]. *)
Lemma groupLoop_spec sep integers : forall fuel i intPart,
  length integers - i <= fuel ->
  groupLoop fuel sep integers (length integers) i intPart =
  intPart ++ flat_map (fun x => sep ++ x) (chunks3 (skipn i integers)).
Proof.
  induction fuel as [|fuel IH]; intros i intPart Hfuel; cbn [groupLoop].
  - rewrite skipn_all2 by lia. cbn. now rewrite app_nil_r.
  - destruct (Nat.ltb_spec i (length integers)) as [Hlt|Hge].
    + rewrite IH by (unfold NUMBER_GROUP_SIZE; lia).
      rewrite (chunks3_step (r := skipn i integers)).
      * cbn [flat_map]. unfold substr, NUMBER_GROUP_SIZE.
        rewrite skipn_skipn, (Nat.add_comm 3 i), <- !app_assoc. reflexivity.
      * intros E. apply (f_equal (@length ascii)) in E.
        rewrite length_skipn in E. simpl in E. lia.
    + rewrite skipn_all2 by lia. cbn. now rewrite app_nil_r.
Qed.

(** More fuel than needed changes nothing: the loop has stopped by then. *)
Lemma groupLoop_fuel sep integers fuel fuel' i intPart :
  length integers - i <= fuel -> length integers - i <= fuel' ->
  groupLoop fuel sep integers (length integers) i intPart =
  groupLoop fuel' sep integers (length integers) i intPart.
Proof. intros H H'. now rewrite !groupLoop_spec. Qed.

Lemma groupIntegers_spec sep integers :
  groupIntegers sep integers = joinWith sep (specGroups integers).
Proof.
  unfold groupIntegers, specGroups, joinWith.
  fold (leftmostSize (length integers)).
  rewrite groupLoop_spec by lia. reflexivity.
Qed.

Lemma concat_specGroups integers : concat (specGroups integers) = integers.
Proof.
  unfold specGroups. cbn [concat]. rewrite concat_chunks3. apply firstn_skipn.
Qed.

Lemma specGroups_head integers :
  length (hd [] (specGroups integers)) =
  Nat.min (leftmostSize (length integers)) (length integers).
Proof. unfold specGroups. cbn [hd]. apply length_firstn. Qed.

Lemma specGroups_head_full integers :
  integers <> [] ->
  length (hd [] (specGroups integers)) = leftmostSize (length integers).
Proof.
  intros Hne. rewrite specGroups_head. apply Nat.min_l, leftmostSize_le.
  destruct integers; [congruence | cbn; lia].
Qed.

Lemma specGroups_tail integers :
  Forall (fun x => length x = 3) (tl (specGroups integers)).
Proof.
  unfold specGroups. cbn [tl].
  destruct (leftmostSize_rest (length integers)) as (n & Hn).
  apply chunks3_sizes with (n := n). now rewrite length_skipn.
Qed.

Lemma filter_keep (f : ascii -> bool) s : forallb f s = true -> filter f s = s.
Proof.
  induction s as [|y s IH]; [reflexivity|]. cbn [forallb filter].
  intros H. apply andb_true_iff in H as [Hy Hs]. rewrite Hy. f_equal. now apply IH.
Qed.

(** Deleting the separator from a joined list gives the groups back, when
    no group holds it. *)
Lemma filter_flat_map_sep g (groups : list jsstring) :
  Forall (fun x => forallb (fun y => negb (Ascii.eqb g y)) x = true) groups ->
  filter (fun y => negb (Ascii.eqb g y)) (flat_map (fun x => [g] ++ x) groups)
  = concat groups.
Proof.
  induction 1 as [|x l Hx Hl IH]; [reflexivity|].
  cbn [flat_map concat]. rewrite !filter_app, IH, (@filter_keep _ _ Hx).
  cbn [filter]. now rewrite Ascii.eqb_refl.
Qed.

Lemma forallb_concat_parts (f : ascii -> bool) (groups : list jsstring) :
  forallb f (concat groups) = true -> Forall (fun x => forallb f x = true) groups.
Proof.
  induction groups as [|x l IH]; [constructor|].
  cbn [concat]. rewrite forallb_app. intros H.
  apply andb_true_iff in H as [Hx Hl]. constructor; auto.
Qed.

Lemma filter_groupIntegers g integers :
  forallb (fun y => negb (Ascii.eqb g y)) integers = true ->
  filter (fun y => negb (Ascii.eqb g y)) (groupIntegers [g] integers) = integers.
Proof.
  intros H. rewrite groupIntegers_spec.
  rewrite <- (concat_specGroups integers) in H.
  apply forallb_concat_parts in H.
  destruct (specGroups integers) as [|x l] eqn:E; [discriminate E|].
  cbn [joinWith]. rewrite filter_app, filter_flat_map_sep by (now inversion H).
  rewrite filter_keep by (now inversion H).
  rewrite <- (concat_specGroups integers), E. reflexivity.
Qed.

(** The grouped text ends with the code unit its input ends with. *)
Lemma joinWith_last sep : forall (rest : list jsstring) (x : jsstring),
  Forall (fun y => y <> []) (x :: rest) ->
  exists a z, joinWith sep (x :: rest) = a ++ [z] /\ In z (concat (x :: rest)).
Proof.
  induction rest as [|y rest IH]; intros x H.
  - inversion H as [|? ? Hx _]; subst.
    destruct (exists_last Hx) as (a & z & ->). exists a, z.
    cbn. rewrite !app_nil_r. split; [reflexivity|].
    apply in_or_app. right. now left.
  - inversion H as [|? ? Hx Hrest]; subst.
    destruct (IH y Hrest) as (a & z & E & Hin).
    exists (x ++ sep ++ a), z. split.
    + cbn [joinWith flat_map] in *. rewrite <- !app_assoc. do 2 f_equal.
      rewrite <- E. reflexivity.
    + cbn [concat]. apply in_or_app. now right.
Qed.

Lemma groupIntegers_last sep integers :
  integers <> [] ->
  exists a z, groupIntegers sep integers = a ++ [z] /\ In z integers.
Proof.
  intros Hne. rewrite groupIntegers_spec.
  unfold specGroups.
  destruct (joinWith_last sep (rest := chunks3 (skipn (leftmostSize (length integers)) integers))
              (x := firstn (leftmostSize (length integers)) integers)) as (a & z & E & Hin).
  - constructor.
    + intros E. apply (f_equal (@length ascii)) in E. rewrite length_firstn in E.
      pose proof (leftmostSize_bounds (length integers)).
      assert (0 < length integers) by (destruct integers; [congruence | cbn; lia]).
      cbn [length] in E. lia.
    + apply chunks3_nonempty with (n := length integers). rewrite length_skipn. lia.
  - exists a, z. split; [assumption|].
    change (In z (concat (specGroups integers))) in Hin.
    now rewrite concat_specGroups in Hin.
Qed.

Lemma groupIntegers_nil sep : groupIntegers sep [] = [].
Proof. reflexivity. Qed.

End Grouping.

(* ================================================================== *)
(** ** formatNumber *)
(* ================================================================== *)

Section FormatNumber.

Variable biggystring_toFixed : jsstring -> Z -> Z -> result jsstring.
Variable hostRegExp : jsstring -> result (jsstring -> jsstring).

(** Without [toFixed], [formatNumber] groups the text before the first '.'
    and appends the decimals. *)
Lemma formatNumber_plain locale number (o : bool) :
  formatNumber biggystring_toFixed locale number
    (if o then Some {| toFixed := None; noGrouping := false |} else None)
  = Ok (groupIntegers (groupingSeparator locale) (beforeSep "." number)
        ++ decimalsSuffix locale number).
Proof.
  unfold formatNumber, decimalsSuffix.
  change NATIVE_DECIMAL_SEPARATOR with ["."%char].
  destruct o; cbn [toFixed noGrouping bind];
    rewrite split_single_0, split_single_1;
    destruct (afterSep "." number) as [[|x d]|]; cbn [truthyOpt truthyStr template];
    now rewrite ?app_nil_r.
Qed.

(** A truthy [toFixed] sends the text through the helper first. *)
Lemma formatNumber_toFixed locale number n :
  n <> 0%Z ->
  formatNumber biggystring_toFixed locale number (withToFixed n)
  = bind (biggystring_toFixed number n n)
         (fun rounded => formatNumber biggystring_toFixed locale rounded noOptions).
Proof.
  intros Hn. unfold formatNumber, withToFixed, noOptions, truthyNum.
  cbn [toFixed noGrouping]. destruct (Z.eqb_spec n 0); [contradiction|].
  cbn [negb]. destruct (biggystring_toFixed number n n); reflexivity.
Qed.

(** C2: with grouping not suppressed, formatNumber cuts the integer part
    (the text before the first '.', of length len) into groups of three from
    the right, the leftmost group of len mod 3 code units (three when that
    is 0; of an empty integer part nothing is left to take), and joins them
    with the locale's grouping separator; the groups are exactly the integer
    part.  formatNumber("1234567") is "1,234,567" under the default locale
    and "1.234.567" under a locale with grouping separator '.' and decimal
    separator ','. *)
Theorem formatNumber_groups_of_three :
  (forall locale number (o : bool),
      let integers := beforeSep "." number in
      formatNumber biggystring_toFixed locale number
        (if o then Some {| toFixed := None; noGrouping := false |} else None)
      = Ok (joinWith (groupingSeparator locale) (specGroups integers)
            ++ decimalsSuffix locale number)
      /\ concat (specGroups integers) = integers
      /\ length (hd [] (specGroups integers))
         = Nat.min (leftmostSize (length integers)) (length integers)
      /\ Forall (fun group => length group = 3) (tl (specGroups integers)))
  /\ formatNumber biggystring_toFixed EN_US_LOCALE (js "1234567") noOptions = Ok (js "1,234,567")
  /\ formatNumber biggystring_toFixed DE_LOCALE (js "1234567") noOptions = Ok (js "1.234.567").
Proof.
  split; [|split; reflexivity].
  intros locale number o integers. repeat split.
  - rewrite formatNumber_plain, groupIntegers_spec. reflexivity.
  - apply concat_specGroups.
  - apply specGroups_head.
  - apply specGroups_tail.
Qed.

(** C3 (the failing case): a [toFixed] of 0 is falsy, so the test
    [options && options.toFixed] skips the helper and the text is formatted
    as if no precision had been asked for: formatNumber("1234.5",
    {toFixed: 0}) is "1,234.5", with its decimal still there. *)
Theorem formatNumber_toFixed_zero_ignored :
  (forall locale number,
      formatNumber biggystring_toFixed locale number (withToFixed 0)
      = formatNumber biggystring_toFixed locale number noOptions)
  /\ formatNumber biggystring_toFixed EN_US_LOCALE (js "1234.5") (withToFixed 0) = Ok (js "1,234.5").
Proof.
  split; [|reflexivity].
  intros locale number. reflexivity.
Qed.

End FormatNumber.

(** With the helper of the spec, formatNumber("1234.5", {toFixed: 2}) is
    "1,234.50". *)
Lemma formatNumber_toFixed_two :
  formatNumber toFixedModel EN_US_LOCALE (js "1234.5") (withToFixed 2)
  = Ok (js "1,234.50").
Proof. reflexivity. Qed.

(* ================================================================== *)
(** ** The round trip formatNumber / formatToNativeNumber *)
(* ================================================================== *)

Section RoundTrip.

Variable biggystring_toFixed : jsstring -> Z -> Z -> result jsstring.
Variable hostRegExp : jsstring -> result (jsstring -> jsstring).

Implicit Types (s ints fp : jsstring) (c d g z : ascii).

Lemma forallb_weaken (f h : ascii -> bool) s :
  (forall x, f x = true -> h x = true) -> forallb f s = true -> forallb h s = true.
Proof.
  intros Himp. induction s as [|x s IH]; [reflexivity|]. cbn [forallb].
  intros H. apply andb_true_iff in H as [Hx Hs]. now rewrite (Himp _ Hx), IH.
Qed.

Lemma numericChar_differs c x :
  numericChar c = false -> numericChar x = true -> negb (Ascii.eqb c x) = true.
Proof.
  intros Hc Hx. destruct (Ascii.eqb_spec c x) as [->|]; [congruence | reflexivity].
Qed.

Lemma isDigit_numericChar x : isDigit x = true -> numericChar x = true.
Proof. unfold numericChar. now intros ->. Qed.

(** A canonical string is an integer part of digits and '-', then nothing
    or a '.' and at least one digit. *)
Lemma canonicalDecimal_shape s :
  canonicalDecimal s = true ->
  exists ints tail,
    s = ints ++ tail /\ forallb numericChar ints = true /\
    (tail = [] \/
     exists x fp, tail = "."%char :: x :: fp /\ forallb isDigit (x :: fp) = true).
Proof.
  unfold canonicalDecimal. intros H.
  assert (Hbody : forall body,
    match dropWhile isDigit body with
    | [] => true
    | c :: fp => Ascii.eqb c "." && truthyStr fp && forallb isDigit fp
    end = true ->
    exists ints tail,
      body = ints ++ tail /\ forallb numericChar ints = true /\
      (tail = [] \/
       exists x fp, tail = "."%char :: x :: fp /\ forallb isDigit (x :: fp) = true)).
  { intros body Hb. exists (takeWhile isDigit body), (dropWhile isDigit body).
    split; [now rewrite takeWhile_dropWhile|]. split.
    - apply forallb_weaken with (f := isDigit); [apply isDigit_numericChar|].
      apply takeWhile_forallb.
    - destruct (dropWhile isDigit body) as [|c fp]; [now left|]. right.
      apply andb_true_iff in Hb as [Hb Hfp]. apply andb_true_iff in Hb as [Hc Hne].
      apply Ascii.eqb_eq in Hc. subst c.
      destruct fp as [|x fp]; [discriminate|]. now exists x, fp. }
  destruct s as [|c r]; [now apply Hbody|].
  destruct (Ascii.eqb_spec c "-") as [->|Hc]; [|now apply Hbody].
  destruct (Hbody r H) as (ints & tail & -> & Hints & Htail).
  exists ("-"%char :: ints), tail. repeat split; assumption.
Qed.

Lemma beforeSep_absent c s :
  forallb (fun x => negb (Ascii.eqb c x)) s = true -> beforeSep c s = s.
Proof. apply takeWhile_all. Qed.

Lemma afterSep_absent c s :
  forallb (fun x => negb (Ascii.eqb c x)) s = true -> afterSep c s = None.
Proof. intros H. unfold afterSep. now rewrite dropWhile_all. Qed.

Lemma beforeSep_first c s t :
  forallb (fun x => negb (Ascii.eqb c x)) s = true -> beforeSep c (s ++ c :: t) = s.
Proof.
  intros H. apply takeWhile_app_stop; [assumption|]. now rewrite Ascii.eqb_refl.
Qed.

Lemma afterSep_first c s t :
  forallb (fun x => negb (Ascii.eqb c x)) s = true ->
  afterSep c (s ++ c :: t) = Some (beforeSep c t).
Proof.
  intros H. unfold afterSep. rewrite dropWhile_app_stop; [reflexivity|assumption|].
  now rewrite Ascii.eqb_refl.
Qed.

(** Text that ends with a digit or '-' has no trailing '.' or ','. *)
Lemma normalizeTrailing_numeric locale s z :
  numericChar z = true -> normalizeTrailing locale (s ++ [z]) = s ++ [z].
Proof.
  intros Hz. unfold normalizeTrailing. change (js ".") with ["."%char].
  change (js ",") with [","%char]. rewrite !endsWith_snoc.
  destruct (Ascii.eqb_spec "." z) as [<-|]; [discriminate|].
  destruct (Ascii.eqb_spec "," z) as [<-|]; [discriminate|]. reflexivity.
Qed.

Lemma normalizeTrailing_nil locale : normalizeTrailing locale [] = [].
Proof. reflexivity. Qed.

Lemma groupIntegers_trailing locale g ints :
  forallb numericChar ints = true ->
  normalizeTrailing locale (groupIntegers [g] ints) = groupIntegers [g] ints.
Proof.
  intros Hints. destruct ints as [|x ints].
  - reflexivity.
  - destruct (groupIntegers_last [g] (integers := x :: ints)) as (a & z & -> & Hin);
      [discriminate|].
    apply normalizeTrailing_numeric.
    rewrite forallb_forall in Hints. now apply Hints.
Qed.


End RoundTrip.



(** Why the amended round trip asks for more than distinct separators. *)

(** A decimal point with nothing after it is dropped by formatNumber. *)
Lemma roundTrip_trailing_point :
  roundTrip toFixedModel strictHost EN_US_LOCALE (js "12.") = Ok (js "12").
Proof. reflexivity. Qed.

(** A grouping separator 'd' compiles to the digit class: the digits go. *)
Lemma roundTrip_class_escape :
  roundTrip toFixedModel strictHost
    {| localeIdentifier := js "x_X"; decimalSeparator := js "."; groupingSeparator := js "d" |}
    (js "1234")
  = Ok (js "d").
Proof. reflexivity. Qed.

(** A digit as decimal separator is replaced where it is a digit. *)
Lemma roundTrip_digit_separator :
  roundTrip toFixedModel strictHost
    {| localeIdentifier := js "x_X"; decimalSeparator := js "5"; groupingSeparator := js "," |}
    (js "5.5")
  = Ok (js ".55").
Proof. reflexivity. Qed.

(* ================================================================== *)
(** ** setIntlLocale *)
(* ================================================================== *)

(** C4: setIntlLocale called with no descriptor (null or undefined) throws,
    and the module's locale slot (with the rest of the module state) is what
    it was before the call. *)
Theorem setIntlLocale_null_throws (w : World) :
  exists e, fst (setIntlLocale None w) = Throw e
            /\ snd (setIntlLocale None w) = w
            /\ locale (snd (setIntlLocale None w)) = locale w.
Proof.
  exists (Error (js "Please select locale for internationalization")).
  repeat split.
Qed.

(** C5: setIntlLocale called with a descriptor that lacks decimalSeparator,
    groupingSeparator or localeIdentifier (undefined or empty) does not
    throw: it returns, the locale slot holds the default locale (identifier
    "en_US", decimal '.', grouping ','), and the only other effect is one
    warning on the console. *)
Theorem setIntlLocale_missing_field_falls_back (d : LocaleDescriptor) (w : World) :
  missingField d = true ->
  setIntlLocale (Some d) w
  = (Ok tt, {| locale := EN_US_LOCALE; console := warning :: console w |})
  /\ localeIdentifier EN_US_LOCALE = js "en_US"
  /\ decimalSeparator EN_US_LOCALE = js "."
  /\ groupingSeparator EN_US_LOCALE = js ",".
Proof.
  intros H. repeat split. unfold setIntlLocale, missingField in *.
  destruct (descDecimal d) as [dec|], (descGrouping d) as [grp|],
    (descIdentifier d) as [ident|]; try reflexivity.
  cbn [truthyOpt] in H. now rewrite H.
Qed.

(** setLocale({identifier: "fr_FR"}), the separators missing, from a state
    that holds another locale. *)
Lemma setIntlLocale_missing_field_witness :
  setIntlLocale
    (Some {| descIdentifier := Some (js "fr_FR"); descDecimal := None; descGrouping := None |})
    {| locale := DE_LOCALE; console := [] |}
  = (Ok tt, {| locale := EN_US_LOCALE; console := [warning] |})
  /\ localeIdentifier EN_US_LOCALE = js "en_US"
  /\ decimalSeparator EN_US_LOCALE = js "."
  /\ groupingSeparator EN_US_LOCALE = js ",".
Proof.
  apply (@setIntlLocale_missing_field_falls_back
           {| descIdentifier := Some (js "fr_FR"); descDecimal := None; descGrouping := None |}
           {| locale := DE_LOCALE; console := [] |}).
  reflexivity.
Defined.

(** A complete descriptor is stored as it is, and nothing is logged. *)
Lemma setIntlLocale_complete ident dec grp (w : World) :
  truthyStr ident = true -> truthyStr dec = true -> truthyStr grp = true ->
  setIntlLocale
    (Some {| descIdentifier := Some ident; descDecimal := Some dec; descGrouping := Some grp |}) w
  = (Ok tt,
     {| locale := {| localeIdentifier := ident; decimalSeparator := dec;
                     groupingSeparator := grp |};
        console := console w |}).
Proof. intros Hi Hd Hg. cbn. now rewrite Hi, Hd, Hg. Qed.

(** Whatever the argument, the slot afterwards holds non-empty separators
    if it did before. *)
Lemma setIntlLocale_keeps_separators (l : option LocaleDescriptor) (w : World) :
  truthyStr (decimalSeparator (locale w)) = true ->
  truthyStr (groupingSeparator (locale w)) = true ->
  truthyStr (decimalSeparator (locale (snd (setIntlLocale l w)))) = true
  /\ truthyStr (groupingSeparator (locale (snd (setIntlLocale l w)))) = true.
Proof.
  intros Hd Hg. destruct l as [d|]; [|now split].
  unfold setIntlLocale.
  destruct (descDecimal d) as [dec|], (descGrouping d) as [grp|],
    (descIdentifier d) as [ident|]; try (now split).
  destruct (truthyStr dec) eqn:E1, (truthyStr grp) eqn:E2, (truthyStr ident) eqn:E3;
    cbn; now split.
Qed.

(* ================================================================== *)
(** ** formatNumberInput *)
(* ================================================================== *)

(** C8: for an input that ends in '.' or ',', formatNumberInput drops that
    last code unit, formats what is left with formatNumber (no options), and
    appends the locale's decimal separator; formatNumberInput("12,") is
    "12." under the default locale and "12," under a locale whose decimal
    separator is ','. *)
Theorem formatNumberInput_trailing_separator
    (biggystring_toFixed : jsstring -> Z -> Z -> result jsstring)
    (locale : IntlLocaleType) (body : jsstring) (c : ascii)
    (options : option IntlNumberFormatOptionsType) :
  c = "."%char \/ c = ","%char ->
  formatNumberInput biggystring_toFixed locale (body ++ [c]) options
  = bind (formatNumber biggystring_toFixed locale body noOptions)
         (fun formatted => Ok (formatted ++ decimalSeparator locale))
  /\ formatNumberInput biggystring_toFixed EN_US_LOCALE (js "12,") options = Ok (js "12.")
  /\ formatNumberInput biggystring_toFixed DE_LOCALE (js "12,") options = Ok (js "12,").
Proof.
  intros Hc. split; [|split; reflexivity].
  unfold formatNumberInput. change (js ".") with ["."%char]. change (js ",") with [","%char].
  rewrite !endsWith_snoc, slice_drop_last.
  destruct Hc as [->| ->]; reflexivity.
Qed.

(** The live-typing case "1,234" + '.', under the default locale. *)
Lemma formatNumberInput_trailing_separator_witness :
  formatNumberInput toFixedModel EN_US_LOCALE (js "1234" ++ ["."%char]) noOptions
  = bind (formatNumber toFixedModel EN_US_LOCALE (js "1234") noOptions)
         (fun formatted => Ok (formatted ++ decimalSeparator EN_US_LOCALE))
  /\ formatNumberInput toFixedModel EN_US_LOCALE (js "12,") noOptions = Ok (js "12.")
  /\ formatNumberInput toFixedModel DE_LOCALE (js "12,") noOptions = Ok (js "12,").
Proof.
  apply (@formatNumberInput_trailing_separator toFixedModel EN_US_LOCALE (js "1234") "."%char noOptions).
  left. reflexivity.
Defined.

(* ================================================================== *)
(** ** isValidInput *)
(* ================================================================== *)

Section IsValidInput.

Variable hostRegExp : jsstring -> result (jsstring -> jsstring).

Implicit Types (value : jsstring) (d g : ascii).

(** The canonical text [isValidInput] hands to [+]: the trailing '.' or ','
    normalized, every grouping separator deleted, the first decimal
    separator replaced by '.'. *)
Lemma standardize_literal locale d g value :
  decimalSeparator locale = [d] -> literalEscape g = true ->
  standardize locale (atomEscape g) value
  = replaceFirst [d] (js ".") (filter (fun x => negb (Ascii.eqb g x)) value).
Proof.
  intros Hd Hlit. unfold standardize, literalEscape in *. rewrite Hd.
  destruct (atomEscape g) as [x| | | |]; try discriminate.
  apply Ascii.eqb_eq in Hlit. now subst x.
Qed.

(** The empty string stays empty under every one-unit pattern. *)
Lemma replaceAllEmpty_atomEscape_nil g : replaceAllEmpty (atomEscape g) [] = [].
Proof.
  unfold atomEscape.
  repeat match goal with
         | |- context [if ?b then _ else _] => destruct b
         end; reflexivity.
Qed.

(** What [isValidInput] computes when the grouping pattern is literal. *)
Lemma isValidInput_literal locale d g value :
  decimalSeparator locale = [d] ->
  groupingSeparator locale = [g] ->
  literalEscape g = true ->
  isValidInput hostRegExp locale value
  = Ok (eqs value [d]
        || negb (isNaN (ToNumber
             (replaceFirst [d] (js ".")
                (filter (fun x => negb (Ascii.eqb g x))
                   (normalizeTrailing locale value)))))).
Proof.
  intros Hd Hg Hlit.
  unfold isValidInput. rewrite Hg. cbn [groupingSeparatorRegExp bind].
  rewrite (@standardize_literal locale d g _ Hd Hlit), Hd.
  destruct (eqs value [d]); reflexivity.
Qed.

(** C6 (amended): under a locale with single-code-unit separators whose
    grouping separator is matched literally by its escaped pattern,
    isValidInput(value) is true when value is exactly the decimal separator;
    otherwise it normalizes a trailing '.' or ',' to the decimal separator,
    deletes every grouping separator, replaces the first decimal separator
    by '.', and is true exactly when the result converts to a number other
    than NaN (an infinity included).  Under the default locale
    isValidInput("1,234.56") is true and isValidInput("1.234.56") is
    false. *)
Theorem isValidInput_not_NaN locale d g value :
  decimalSeparator locale = [d] ->
  groupingSeparator locale = [g] ->
  literalEscape g = true ->
  isValidInput hostRegExp locale value
  = Ok (eqs value [d]
        || negb (isNaN (ToNumber
             (replaceFirst [d] (js ".")
                (filter (fun x => negb (Ascii.eqb g x))
                   (normalizeTrailing locale value))))))
  /\ isValidInput hostRegExp EN_US_LOCALE (js "1,234.56") = Ok true
  /\ isValidInput hostRegExp EN_US_LOCALE (js "1.234.56") = Ok false.
Proof.
  intros Hd Hg Hlit. split; [|split; reflexivity].
  now apply isValidInput_literal.
Qed.

(** C10 (amended): isValidInput("") is true under every locale with
    single-code-unit separators, and a string made only of grouping
    separators is accepted when the grouping separator is neither '.' nor
    ',' (and is matched literally by its escaped pattern, and differs from
    the decimal separator); under the default locale, whose grouping
    separator is ',', every non-empty string of grouping separators is
    rejected. *)
Theorem isValidInput_blank locale d g :
  decimalSeparator locale = [d] ->
  groupingSeparator locale = [g] ->
  isValidInput hostRegExp locale (js "") = Ok true
  /\ (literalEscape g = true -> Ascii.eqb d g = false ->
      Ascii.eqb g "." = false -> Ascii.eqb g "," = false ->
      forall n, isValidInput hostRegExp locale (repeat g n) = Ok true)
  /\ (forall n, isValidInput hostRegExp EN_US_LOCALE (repeat ","%char (S n)) = Ok false).
Proof.
  intros Hd Hg. split; [|split].
  - unfold isValidInput, standardize. rewrite Hg, Hd. cbn [groupingSeparatorRegExp bind].
    change (js "") with (@nil ascii). cbn [eqs]. rewrite normalizeTrailing_nil.
    rewrite replaceAllEmpty_atomEscape_nil. reflexivity.
  - intros Hlit Hdg Hgdot Hgcomma n.
    assert (Hstrip : filter (fun x => negb (Ascii.eqb g x)) (repeat g n) = []).
    { induction n as [|n IH]; [reflexivity|]. cbn [repeat filter].
      now rewrite Ascii.eqb_refl. }
    assert (Hnorm : normalizeTrailing locale (repeat g n) = repeat g n).
    { destruct n as [|n]; [reflexivity|].
      unfold normalizeTrailing. cbn [repeat]. rewrite repeat_cons.
      change (js ".") with ["."%char]. change (js ",") with [","%char].
      rewrite !endsWith_snoc, (Ascii.eqb_sym "." g), (Ascii.eqb_sym "," g), Hgdot, Hgcomma.
      reflexivity. }
    rewrite (@isValidInput_literal locale d g (repeat g n) Hd Hg Hlit).
    rewrite Hnorm, Hstrip. cbn. apply f_equal, orb_true_r.
  - intros n.
    rewrite (@isValidInput_literal EN_US_LOCALE "." "," (repeat ","%char (S n))
               eq_refl eq_refl eq_refl).
    assert (Hnorm : normalizeTrailing EN_US_LOCALE (repeat ","%char (S n))
                    = repeat ","%char n ++ ["."%char]).
    { unfold normalizeTrailing. cbn [repeat]. rewrite repeat_cons.
      change (js ".") with ["."%char]. change (js ",") with [","%char].
      rewrite !endsWith_snoc, slice_drop_last. reflexivity. }
    rewrite Hnorm, filter_app.
    assert (Hstrip : filter (fun x => negb (Ascii.eqb "," x)) (repeat ","%char n) = []).
    { clear. induction n as [|n IH]; [reflexivity|]. cbn [repeat filter]. exact IH. }
    rewrite Hstrip.
    assert (Hne : eqs (repeat ","%char (S n)) ["."%char] = false).
    { unfold eqs. destruct (list_eq_dec ascii_dec _ _) as [E|]; [discriminate E | reflexivity]. }
    rewrite Hne. reflexivity.
Qed.

End IsValidInput.

(** The default locale is an instance. *)
Lemma isValidInput_not_NaN_witness :
  isValidInput strictHost EN_US_LOCALE (js "12,")
  = Ok (eqs (js "12,") ["."%char]
        || negb (isNaN (ToNumber
             (replaceFirst ["."%char] (js ".")
                (filter (fun x => negb (Ascii.eqb "," x))
                   (normalizeTrailing EN_US_LOCALE (js "12,")))))))
  /\ isValidInput strictHost EN_US_LOCALE (js "1,234.56") = Ok true
  /\ isValidInput strictHost EN_US_LOCALE (js "1.234.56") = Ok false.
Proof.
  apply (@isValidInput_not_NaN strictHost EN_US_LOCALE "." "," (js "12,"));
    reflexivity.
Defined.

(** C6 (as stated) fails: "Infinity" is accepted although it does not
    denote a finite number. *)
Lemma isValidInput_finite_counterexample :
  ~ (forall value,
        eqs value (decimalSeparator EN_US_LOCALE) = false ->
        isValidInput strictHost EN_US_LOCALE value
        = Ok (isFinite (ToNumber
                (standardize EN_US_LOCALE (RxChar ",")
                   (normalizeTrailing EN_US_LOCALE value))))).
Proof.
  intros H. specialize (H (js "Infinity") eq_refl). vm_compute in H. discriminate H.
Qed.

(** An overflowing literal is accepted too. *)
Lemma isValidInput_overflow :
  isValidInput strictHost EN_US_LOCALE (js "1e999") = Ok true
  /\ ToNumber (js "1e999") = IsInfinite.
Proof. split; vm_compute; reflexivity. Qed.

(** A locale that groups with a blank: blank-only input is accepted. *)
Lemma isValidInput_blank_witness :
  isValidInput strictHost FR_LOCALE (js "") = Ok true
  /\ (literalEscape " " = true -> Ascii.eqb "," " " = false ->
      Ascii.eqb " " "." = false -> Ascii.eqb " " "," = false ->
      forall n, isValidInput strictHost FR_LOCALE (repeat " "%char n) = Ok true)
  /\ (forall n, isValidInput strictHost EN_US_LOCALE (repeat ","%char (S n)) = Ok false).
Proof.
  apply (@isValidInput_blank strictHost FR_LOCALE "," " "); reflexivity.
Defined.

(** C10 (as stated) fails: under the default locale the one-separator
    string "," is rejected, its trailing ',' having become the decimal
    point. *)
Lemma isValidInput_grouping_only_counterexample :
  ~ (forall value,
        forallb (fun x => eqs [x] (groupingSeparator EN_US_LOCALE)) value = true ->
        isValidInput strictHost EN_US_LOCALE value = Ok true).
Proof.
  intros H. specialize (H (js ",") eq_refl). vm_compute in H. discriminate H.
Qed.

(* ================================================================== *)
(** ** truncateDecimals *)
(* ================================================================== *)

Section TruncateDecimals.

Implicit Types (input : jsstring) (d : ascii).

Lemma afterSep_includes d input :
  includes [d] input = true -> exists frac, afterSep d input = Some frac.
Proof.
  rewrite includes_single. unfold afterSep.
  induction input as [|x input IH]; [discriminate|].
  cbn [existsb dropWhile]. destruct (Ascii.eqb d x); cbn [orb negb].
  - intros _. now eexists.
  - exact IH.
Qed.

Lemma includes_not_nil d input : includes [d] input = true -> eqs input [] = false.
Proof. destruct input; [discriminate | reflexivity]. Qed.

(** C7 (amended): under a locale whose decimal separator is the single code
    unit d, for every input that contains d and every non-negative integer
    precision p, truncateDecimals(input, p) is the text before the first d,
    then d, then the first p code units of what follows it (up to the next
    d, if there is one): the fractional part is cut, never rounded, and the
    integer part and the separator are kept.  truncateDecimals("12.34567",
    2) is "12.34" and truncateDecimals("12.999", 2) is "12.99".  A
    non-empty input without d is returned unchanged; the empty input
    becomes "0", or stays empty when allowBlank is set. *)
Theorem truncateDecimals_truncates locale d (p : Z) (allowBlank : bool) :
  decimalSeparator locale = [d] ->
  (0 <= p)%Z ->
  (forall input,
      includes [d] input = true ->
      exists frac,
        afterSep d input = Some frac
        /\ truncateDecimals locale input (Some p) allowBlank
           = Ok (beforeSep d input ++ [d] ++ firstn (Z.to_nat p) frac))
  /\ (forall integers frac,
        includes [d] integers = false -> includes [d] frac = false ->
        truncateDecimals locale (integers ++ [d] ++ frac) (Some p) allowBlank
        = Ok (integers ++ [d] ++ firstn (Z.to_nat p) frac))
  /\ (forall input,
        includes [d] input = false ->
        truncateDecimals locale input (Some p) allowBlank
        = Ok (if eqs input [] then (if allowBlank then js "" else js "0") else input))
  /\ truncateDecimals EN_US_LOCALE (js "12.34567") (Some 2%Z) false = Ok (js "12.34")
  /\ truncateDecimals EN_US_LOCALE (js "12.999") (Some 2%Z) false = Ok (js "12.99").
Proof.
  intros Hd Hp.
  assert (Hone : forall input,
    includes [d] input = true ->
    exists frac,
      afterSep d input = Some frac
      /\ truncateDecimals locale input (Some p) allowBlank
         = Ok (beforeSep d input ++ [d] ++ firstn (Z.to_nat p) frac)).
  { intros input Hin. destruct (afterSep_includes _ _ Hin) as (frac & Hfrac).
    exists frac. split; [assumption|].
    unfold truncateDecimals. rewrite Hd, (includes_not_nil _ _ Hin), Hin. cbn [negb].
    rewrite split_single_0, split_single_1, Hfrac. cbn [template].
    rewrite <- (Z2Nat.id p Hp) at 1. now rewrite slice_prefix. }
  split; [exact Hone|]. split; [|split; [|split; reflexivity]].
  - intros integers frac Hi Hf.
    rewrite includes_single in Hi, Hf.
    assert (Hi' : forallb (fun x => negb (Ascii.eqb d x)) integers = true).
    { rewrite forallb_forall. intros x Hx. destruct (Ascii.eqb d x) eqn:E; [|reflexivity].
      exfalso. assert (existsb (Ascii.eqb d) integers = true); [|congruence].
      apply existsb_exists. now exists x. }
    assert (Hf' : forallb (fun x => negb (Ascii.eqb d x)) frac = true).
    { rewrite forallb_forall. intros x Hx. destruct (Ascii.eqb d x) eqn:E; [|reflexivity].
      exfalso. assert (existsb (Ascii.eqb d) frac = true); [|congruence].
      apply existsb_exists. now exists x. }
    destruct (Hone (integers ++ [d] ++ frac)) as (frac' & Hfrac' & ->).
    + rewrite includes_single, existsb_app. cbn. rewrite Ascii.eqb_refl.
      apply orb_true_iff. right. reflexivity.
    + cbn [app] in *. rewrite afterSep_first in Hfrac' by assumption.
      rewrite beforeSep_first by assumption.
      rewrite beforeSep_absent in Hfrac' by assumption. congruence.
  - intros input Hin. unfold truncateDecimals. rewrite Hd.
    destruct (eqs input []) eqn:E.
    + destruct allowBlank; [reflexivity|].
      change (js "0") with ["0"%char]. rewrite includes_single. cbn [existsb].
      destruct (Ascii.eqb_spec d "0") as [->|]; [|reflexivity].
      cbn [orb negb]. rewrite split_single_0, split_single_1.
      cbn [beforeSep afterSep takeWhile dropWhile Ascii.eqb Bool.eqb negb template app].
      rewrite <- (Z2Nat.id p Hp), slice_prefix, firstn_nil. reflexivity.
    + now rewrite Hin.
Qed.

End TruncateDecimals.

(** The amended statement at "1.2.3", under the default locale. *)
Lemma truncateDecimals_truncates_witness :
  (forall input,
      includes ["."%char] input = true ->
      exists frac,
        afterSep "." input = Some frac
        /\ truncateDecimals EN_US_LOCALE input (Some 2%Z) false
           = Ok (beforeSep "." input ++ ["."%char] ++ firstn (Z.to_nat 2) frac))
  /\ (forall integers frac,
        includes ["."%char] integers = false -> includes ["."%char] frac = false ->
        truncateDecimals EN_US_LOCALE (integers ++ ["."%char] ++ frac) (Some 2%Z) false
        = Ok (integers ++ ["."%char] ++ firstn (Z.to_nat 2) frac))
  /\ (forall input,
        includes ["."%char] input = false ->
        truncateDecimals EN_US_LOCALE input (Some 2%Z) false
        = Ok (if eqs input [] then (if false then js "" else js "0") else input))
  /\ truncateDecimals EN_US_LOCALE (js "12.34567") (Some 2%Z) false = Ok (js "12.34")
  /\ truncateDecimals EN_US_LOCALE (js "12.999") (Some 2%Z) false = Ok (js "12.99").
Proof.
  apply (@truncateDecimals_truncates EN_US_LOCALE "." 2%Z false); [reflexivity | lia].
Defined.

(** C7 (as stated) fails: the empty string holds no decimal separator, and
    truncateDecimals("", 2) is "0". *)
Lemma truncateDecimals_unchanged_counterexample :
  ~ (forall input,
        includes (decimalSeparator EN_US_LOCALE) input = false ->
        truncateDecimals EN_US_LOCALE input (Some 2%Z) false = Ok input).
Proof.
  intros H. specialize (H (js "") eq_refl). vm_compute in H. discriminate H.
Qed.

(** With several separators only the text up to the second one is kept. *)
Lemma truncateDecimals_second_separator :
  truncateDecimals EN_US_LOCALE (js "1.2.3") (Some 5%Z) false = Ok (js "1.2").
Proof. reflexivity. Qed.

(* ================================================================== *)
(** ** No exception on any input text *)
(* ================================================================== *)

Section NeverThrows.

Variable biggystring_toFixed : jsstring -> Z -> Z -> result jsstring.
Variable hostRegExp : jsstring -> result (jsstring -> jsstring).







Lemma truncateDecimals_returns locale input precision allowBlank :
  truthyStr (decimalSeparator locale) = true ->
  returns (truncateDecimals locale input precision allowBlank) = true.
Proof.
  intros Hd. unfold truncateDecimals.
  set (input' := if eqs input [] then _ else _).
  destruct (includes (decimalSeparator locale) input') eqn:Hin; [|reflexivity].
  cbn [negb]. unfold split.
  destruct (decimalSeparator locale) as [|c sep] eqn:E; [discriminate|].
  destruct (@includes_splitFrom (c :: sep) input') as (a & b & gs & ->);
    [discriminate | assumption | reflexivity].
Qed.


End NeverThrows.



(** The same text through formatNumber without options: the helper is not
    called, and the text after the second '.' is dropped. *)
Lemma formatNumber_malformed_returns :
  formatNumber toFixedModel EN_US_LOCALE (js "1.2.3") noOptions = Ok (js "1.2").
Proof. reflexivity. Qed.

(** What the locale conditions of C9 keep out: an empty decimal separator
    makes [truncateDecimals] read a part that does not exist. *)
Lemma truncateDecimals_empty_separator_throws :
  truncateDecimals
    {| localeIdentifier := js "x_X"; decimalSeparator := js ""; groupingSeparator := js "," |}
    (js "5") (Some 2%Z) false
  = Throw TypeError.
Proof. reflexivity. Qed.

(* ================================================================== *)
(** ** prettifyNumber *)
(* ================================================================== *)

(** Leading zeros go, and a bare leading separator gets one '0' back. *)
Lemma prettifyNumber_examples :
  prettifyNumber EN_US_LOCALE (js "00.5") = js "0.5"
  /\ prettifyNumber EN_US_LOCALE (js "007") = js "7".
Proof. split; reflexivity. Qed.

(* ================================================================== *)
(** ** More on formatNumber *)
(* ================================================================== *)

Section FormatNumberMore.

Variable biggystring_toFixed : jsstring -> Z -> Z -> result jsstring.

Implicit Types (s ints frac sep : jsstring) (c : ascii).

Lemma includes_false_forallb c s :
  includes [c] s = false -> forallb (fun x => negb (Ascii.eqb c x)) s = true.
Proof.
  rewrite includes_single. induction s as [|x s IH]; [reflexivity|].
  cbn [existsb forallb]. destruct (Ascii.eqb c x); cbn [orb negb andb];
    [discriminate | exact IH].
Qed.

Lemma forallb_includes_false c s :
  forallb (fun x => negb (Ascii.eqb c x)) s = true -> includes [c] s = false.
Proof.
  rewrite includes_single. induction s as [|x s IH]; [reflexivity|].
  cbn [existsb forallb]. destruct (Ascii.eqb c x); cbn [orb negb andb];
    [discriminate | exact IH].
Qed.

Lemma chunks3_count n : forall r, length r = 3 * n -> length (chunks3 r) = n.
Proof.
  induction n as [|n IH]; intros r Hr.
  - destruct r; [reflexivity | simpl in Hr; lia].
  - destruct r as [|a [|b [|c r]]]; simpl in Hr; try lia.
    cbn [chunks3 length]. f_equal. apply IH. lia.
Qed.

Lemma length_flat_map_sep sep (groups : list jsstring) :
  length (flat_map (fun x => sep ++ x) groups)
  = length groups * length sep + length (concat groups).
Proof.
  induction groups as [|x l IH]; [reflexivity|].
  cbn [flat_map concat length]. rewrite !length_app, IH. lia.
Qed.

(** One separator goes in for every full group of three after the first
    code unit. *)
Lemma groupIntegers_length sep ints :
  length (groupIntegers sep ints)
  = length ints + ((length ints - 1) / 3) * length sep.
Proof.
  rewrite groupIntegers_spec. unfold specGroups, joinWith.
  set (len := length ints). set (k := leftmostSize len).
  destruct (leftmostSize_rest len) as (n & Hn). fold k in Hn.
  rewrite length_app, length_flat_map_sep, concat_chunks3.
  rewrite (@chunks3_count n) by (rewrite length_skipn; exact Hn).
  rewrite length_firstn, length_skipn. fold len.
  pose proof (leftmostSize_bounds len) as Hk. fold k in Hk.
  assert (Hdiv : (len - 1) / 3 = n).
  { destruct (Nat.eq_dec len 0) as [E|E].
    - rewrite E in *. cbn. lia.
    - pose proof (@leftmostSize_le len ltac:(lia)) as Hle. fold k in Hle.
      symmetry. apply Nat.div_unique with (r := k - 1); lia. }
  rewrite Hdiv. lia.
Qed.

(** X1: the formatted text is as long as the integer part, plus one
    grouping separator for each full group of three behind its first code
    unit (so (len - 1) / 3 separators), plus the decimals. *)
Theorem formatNumber_length locale number :
  exists out,
    formatNumber biggystring_toFixed locale number noOptions = Ok out
    /\ length out
       = length (beforeSep "." number)
         + ((length (beforeSep "." number) - 1) / 3) * length (groupingSeparator locale)
         + length (decimalsSuffix locale number).
Proof.
  eexists. split.
  - exact (formatNumber_plain biggystring_toFixed locale number false).
  - now rewrite length_app, groupIntegers_length.
Qed.

(** X2: the sign counts as a code unit of the integer part: for a negative
    number whose digits fill whole groups of three, the first separator
    comes right after the '-' (formatNumber("-123456") is "-,123,456"). *)
Theorem formatNumber_sign_then_separator locale digits :
  forallb isDigit digits = true ->
  digits <> [] ->
  length digits mod 3 = 0 ->
  formatNumber biggystring_toFixed locale ("-"%char :: digits) noOptions
  = bind (formatNumber biggystring_toFixed locale digits noOptions)
         (fun grouped => Ok ("-"%char :: groupingSeparator locale ++ grouped)).
Proof.
  intros Hdigits Hne Hmod.
  assert (Hdot : forallb (fun x => negb (Ascii.eqb "." x)) digits = true).
  { apply forallb_weaken with (f := isDigit); [|assumption].
    intros x Hx. apply numericChar_differs; [reflexivity | now apply isDigit_numericChar]. }
  unfold noOptions.
  rewrite (formatNumber_plain biggystring_toFixed locale ("-"%char :: digits) false).
  rewrite (formatNumber_plain biggystring_toFixed locale digits false).
  cbn [bind]. unfold decimalsSuffix.
  rewrite (@afterSep_absent "." digits Hdot), (@beforeSep_absent "." digits Hdot).
  assert (Hdot' : forallb (fun x => negb (Ascii.eqb "." x)) ("-"%char :: digits) = true)
    by (cbn [forallb]; now rewrite Hdot).
  rewrite (@afterSep_absent "." _ Hdot'), (@beforeSep_absent "." _ Hdot').
  rewrite !app_nil_r, !groupIntegers_spec. f_equal.
  unfold specGroups, leftmostSize. cbn [length].
  assert (Hlen : 0 < length digits) by (destruct digits; [congruence | cbn; lia]).
  assert (Hs : S (length digits) mod 3 = 1).
  { pose proof (Nat.div_mod_eq (length digits) 3) as Hd.
    symmetry. apply Nat.mod_unique with (q := length digits / 3); lia. }
  rewrite Hs, Hmod. cbn [Nat.eqb].
  change (firstn 1 ("-"%char :: digits)) with ["-"%char].
  change (skipn 1 ("-"%char :: digits)) with digits.
  unfold joinWith. rewrite (@chunks3_step digits Hne).
  cbn [flat_map app]. now rewrite <- app_assoc.
Qed.

(** X3: with noGrouping (and no toFixed) the digits are left as they are:
    text without a '.' comes back unchanged, a trailing '.' is dropped, and
    in "integers.fraction" only the '.' is replaced by the locale's decimal
    separator. *)
Theorem formatNumber_noGrouping locale ints frac :
  includes ["."%char] ints = false ->
  includes ["."%char] frac = false ->
  frac <> [] ->
  formatNumber biggystring_toFixed locale ints withNoGrouping = Ok ints
  /\ formatNumber biggystring_toFixed locale (ints ++ js ".") withNoGrouping = Ok ints
  /\ formatNumber biggystring_toFixed locale (ints ++ js "." ++ frac) withNoGrouping
     = Ok (ints ++ decimalSeparator locale ++ frac).
Proof.
  intros Hi Hf Hne.
  apply includes_false_forallb in Hi. apply includes_false_forallb in Hf.
  unfold formatNumber, withNoGrouping. cbn [toFixed noGrouping bind].
  change NATIVE_DECIMAL_SEPARATOR with ["."%char]. change (js ".") with ["."%char].
  rewrite !split_single_0, !split_single_1. cbn [app].
  rewrite (@beforeSep_absent "." ints Hi), (@afterSep_absent "." ints Hi).
  rewrite !beforeSep_first, !afterSep_first by assumption.
  rewrite (@beforeSep_absent "." frac Hf).
  repeat split.
  destruct frac; [congruence | reflexivity].
Qed.

End FormatNumberMore.

(** "-123456" under the default locale. *)
Lemma formatNumber_sign_then_separator_witness :
  formatNumber toFixedModel EN_US_LOCALE ("-"%char :: js "123456") noOptions
  = bind (formatNumber toFixedModel EN_US_LOCALE (js "123456") noOptions)
         (fun grouped => Ok ("-"%char :: groupingSeparator EN_US_LOCALE ++ grouped)).
Proof.
  apply (@formatNumber_sign_then_separator toFixedModel EN_US_LOCALE (js "123456"));
    [reflexivity | discriminate | reflexivity].
Defined.

(** The amount "1234.50" shown without grouping under the ',' locale. *)
Lemma formatNumber_noGrouping_witness :
  formatNumber toFixedModel DE_LOCALE (js "1234") withNoGrouping = Ok (js "1234")
  /\ formatNumber toFixedModel DE_LOCALE (js "1234" ++ js ".") withNoGrouping = Ok (js "1234")
  /\ formatNumber toFixedModel DE_LOCALE (js "1234" ++ js "." ++ js "50") withNoGrouping
     = Ok (js "1234" ++ decimalSeparator DE_LOCALE ++ js "50").
Proof.
  apply (@formatNumber_noGrouping toFixedModel DE_LOCALE (js "1234") (js "50"));
    [reflexivity | reflexivity | discriminate].
Defined.

(* ================================================================== *)
(** ** More on formatNumberInput *)
(* ================================================================== *)

Section FormatNumberInputMore.

Variable biggystring_toFixed : jsstring -> Z -> Z -> result jsstring.

Implicit Types (input ints frac : jsstring) (z : ascii).

(** X4: while a fraction is being typed, the precision handed to the helper
    is the number of code units typed after the point: for an input
    "integers.fraction" that does not end in ',' formatNumberInput (no
    options) rounds to exactly that many places and then formats. *)
Theorem formatNumberInput_infers_precision locale ints frac z :
  includes ["."%char] ints = false ->
  includes ["."%char] (frac ++ [z]) = false ->
  Ascii.eqb "," z = false ->
  let input := ints ++ js "." ++ frac ++ [z] in
  let typed := Z.of_nat (length (frac ++ [z])) in
  formatNumberInput biggystring_toFixed locale input noOptions
  = bind (biggystring_toFixed input typed typed)
         (fun rounded => formatNumber biggystring_toFixed locale rounded noOptions).
Proof.
  intros Hi Hf Hz input typed.
  apply includes_false_forallb in Hi.
  pose proof (includes_false_forallb _ _ Hf) as Hf'.
  assert (Hzdot : Ascii.eqb "." z = false).
  { destruct (Ascii.eqb "." z) eqn:E; [|reflexivity].
    rewrite forallb_app in Hf'. apply andb_true_iff in Hf' as [_ Hz'].
    cbn [forallb] in Hz'. rewrite E in Hz'. discriminate Hz'. }
  unfold formatNumberInput. change NATIVE_DECIMAL_SEPARATOR with ["."%char].
  change (js ".") with ["."%char] in *. change (js ",") with [","%char].
  subst input. rewrite !app_assoc, !endsWith_snoc, Hzdot, Hz. cbn [orb].
  rewrite <- !app_assoc.
  assert (Hinc : includes ["."%char] (ints ++ ["."%char] ++ frac ++ [z]) = true).
  { rewrite includes_single, existsb_app. cbn. apply orb_true_r. }
  rewrite Hinc, split_single_1. cbn [app].
  rewrite afterSep_first by assumption.
  rewrite (@beforeSep_absent "." _ Hf').
  assert (Htruthy : truthyStr (frac ++ [z]) = true) by (destruct frac; reflexivity).
  rewrite Htruthy. cbn [assignOptions].
  apply formatNumber_toFixed.
  subst typed. rewrite length_app. cbn [length]. lia.
Qed.

(** X5: a toFixed given by the caller replaces the inferred one: for an
    input that does not end in '.' or ',', formatNumberInput with such
    options is formatNumber with the same options. *)
Theorem formatNumberInput_explicit_toFixed locale input options n :
  endsWith (js ".") input || endsWith (js ",") input = false ->
  toFixed options = Some n ->
  formatNumberInput biggystring_toFixed locale input (Some options)
  = formatNumber biggystring_toFixed locale input (Some options).
Proof.
  intros Hend Hn. unfold formatNumberInput. rewrite Hend.
  destruct options as [tf ng]. cbn [toFixed] in Hn. subst tf.
  reflexivity.
Qed.

(** X6: text without a '.' and without a trailing ',' is only grouped: no
    precision is inferred and the helper is not called. *)
Theorem formatNumberInput_integer locale input :
  includes ["."%char] input = false ->
  endsWith (js ",") input = false ->
  formatNumberInput biggystring_toFixed locale input noOptions
  = Ok (groupIntegers (groupingSeparator locale) input).
Proof.
  intros Hinc Hcomma. unfold formatNumberInput.
  assert (Hdot : endsWith (js ".") input = false).
  { destruct (endsWith (js ".") input) eqn:E; [|reflexivity].
    destruct input as [|x input] using rev_ind; [discriminate|].
    change (js ".") with ["."%char] in E. rewrite endsWith_snoc in E.
    apply Ascii.eqb_eq in E. subst x.
    rewrite includes_single, existsb_app in Hinc. cbn in Hinc.
    rewrite orb_true_r in Hinc. discriminate. }
  rewrite Hdot, Hcomma. cbn [orb].
  change NATIVE_DECIMAL_SEPARATOR with ["."%char]. rewrite Hinc.
  unfold noOptions. cbn [assignOptions].
  rewrite (formatNumber_plain biggystring_toFixed locale input true).
  apply includes_false_forallb in Hinc.
  unfold decimalsSuffix.
  rewrite (@beforeSep_absent "." input Hinc), (@afterSep_absent "." input Hinc).
  now rewrite app_nil_r.
Qed.

End FormatNumberInputMore.

(** Typing "1234.5" then '0'. *)
Lemma formatNumberInput_infers_precision_witness :
  formatNumberInput toFixedModel EN_US_LOCALE (js "1234" ++ js "." ++ js "5" ++ ["0"%char]) noOptions
  = bind (toFixedModel (js "1234" ++ js "." ++ js "5" ++ ["0"%char])
            (Z.of_nat (length (js "5" ++ ["0"%char])))
            (Z.of_nat (length (js "5" ++ ["0"%char]))))
         (fun rounded => formatNumber toFixedModel EN_US_LOCALE rounded noOptions).
Proof.
  apply (@formatNumberInput_infers_precision toFixedModel EN_US_LOCALE
           (js "1234") (js "5") "0"%char); reflexivity.
Defined.

(** "1234.5" with { toFixed: 2 }. *)
Lemma formatNumberInput_explicit_toFixed_witness :
  formatNumberInput toFixedModel EN_US_LOCALE (js "1234.5")
    (Some {| toFixed := Some 2%Z; noGrouping := false |})
  = formatNumber toFixedModel EN_US_LOCALE (js "1234.5")
      (Some {| toFixed := Some 2%Z; noGrouping := false |}).
Proof.
  apply (@formatNumberInput_explicit_toFixed toFixedModel EN_US_LOCALE (js "1234.5")
           {| toFixed := Some 2%Z; noGrouping := false |} 2%Z); reflexivity.
Defined.

(** "1234567" while typing. *)
Lemma formatNumberInput_integer_witness :
  formatNumberInput toFixedModel EN_US_LOCALE (js "1234567") noOptions
  = Ok (groupIntegers (groupingSeparator EN_US_LOCALE) (js "1234567")).
Proof.
  apply (@formatNumberInput_integer toFixedModel EN_US_LOCALE (js "1234567"));
    reflexivity.
Defined.

(* ================================================================== *)
(** ** Validation and parsing share one canonical form *)
(* ================================================================== *)

Section NativeNumber.

Variable biggystring_toFixed : jsstring -> Z -> Z -> result jsstring.
Variable hostRegExp : jsstring -> result (jsstring -> jsstring).

Implicit Types (s value ints fp : jsstring) (c d g x : ascii).

(** [isValidInput] is a test on what [formatToNativeNumber] returns. *)
Lemma isValidInput_native locale value :
  isValidInput hostRegExp locale value
  = bind (formatToNativeNumber hostRegExp locale value)
         (fun native =>
            Ok (eqs value (decimalSeparator locale) || negb (isNaN (ToNumber native)))).
Proof.
  unfold isValidInput, formatToNativeNumber.
  destruct (groupingSeparatorRegExp hostRegExp (groupingSeparator locale)); cbn [bind];
    [|reflexivity].
  destruct (eqs value (decimalSeparator locale)); reflexivity.
Qed.

(** X7: under every locale, isValidInput(value) is true exactly when value
    is the decimal separator itself or formatToNativeNumber(value) converts
    to a number other than NaN; where compiling the grouping pattern throws,
    both functions throw. *)
Theorem isValidInput_tests_native_number locale value :
  isValidInput hostRegExp locale value
  = bind (formatToNativeNumber hostRegExp locale value)
         (fun native =>
            Ok (eqs value (decimalSeparator locale) || negb (isNaN (ToNumber native))))
  /\ (returns (isValidInput hostRegExp locale value)
      = returns (formatToNativeNumber hostRegExp locale value)).
Proof.
  split; [apply isValidInput_native|].
  rewrite isValidInput_native.
  destruct (formatToNativeNumber hostRegExp locale value); reflexivity.
Qed.

Lemma replaceFirst_forallb (f : ascii -> bool) d r s :
  forallb f r = true -> forallb f s = true -> forallb f (replaceFirst [d] r s) = true.
Proof.
  intros Hr. induction s as [|x s IH]; [reflexivity|].
  cbn [replaceFirst forallb]. rewrite startsWith_single. intros H.
  apply andb_true_iff in H as [Hx Hs].
  destruct (Ascii.eqb d x).
  - cbn [length skipn]. rewrite forallb_app, Hr, Hs. reflexivity.
  - cbn [forallb]. now rewrite Hx, IH.
Qed.

Lemma filter_forallb (f : ascii -> bool) s : forallb f (filter f s) = true.
Proof.
  induction s as [|x s IH]; [reflexivity|]. cbn [filter].
  destruct (f x) eqn:E; [cbn [forallb]; now rewrite E | exact IH].
Qed.

(** X8: the native text holds no grouping separator: under a locale with
    single-code-unit separators whose grouping separator is matched
    literally and is not '.', no grouping separator is left in
    formatToNativeNumber(value), whatever the value. *)
Theorem formatToNativeNumber_no_grouping_left locale d g value :
  decimalSeparator locale = [d] ->
  groupingSeparator locale = [g] ->
  literalEscape g = true ->
  Ascii.eqb g "." = false ->
  exists native,
    formatToNativeNumber hostRegExp locale value = Ok native
    /\ includes [g] native = false.
Proof.
  intros Hd Hg Hlit Hdot. unfold formatToNativeNumber. rewrite Hg.
  cbn [groupingSeparatorRegExp bind]. eexists. split; [reflexivity|].
  rewrite (@standardize_literal locale d g _ Hd Hlit).
  apply forallb_includes_false, replaceFirst_forallb.
  - change (js ".") with ["."%char]. cbn [forallb]. now rewrite Hdot.
  - apply filter_forallb.
Qed.

(** *** Canonical strings convert to numbers *)

Lemma canonicalChar_facts c :
  canonicalChar c = true ->
  isWhiteSpace c = false
  /\ Ascii.eqb c "+" = false
  /\ Ascii.eqb c "x" || Ascii.eqb c "X" = false
  /\ Ascii.eqb c "o" || Ascii.eqb c "O" = false
  /\ Ascii.eqb c "b" || Ascii.eqb c "B" = false
  /\ Ascii.eqb c "I" = false.
Proof.
  destruct c as [[] [] [] [] [] [] [] []]; vm_compute; intros H;
    try discriminate H; repeat split.
Qed.

Lemma isDigit_canonicalChar c : isDigit c = true -> canonicalChar c = true.
Proof. unfold canonicalChar. now intros ->. Qed.

Lemma isDigit_facts c :
  isDigit c = true -> Ascii.eqb c "-" = false /\ Ascii.eqb c "." = false.
Proof.
  destruct c as [[] [] [] [] [] [] [] []]; vm_compute; intros H;
    try discriminate H; split; reflexivity.
Qed.

(** The parts of a canonical string: sign, integer digits, fraction. *)
Lemma canonicalDecimal_parts s :
  canonicalDecimal s = true ->
  exists sign ip tail,
    s = sign ++ ip ++ tail
    /\ (sign = [] \/ sign = ["-"%char])
    /\ forallb isDigit ip = true
    /\ (tail = [] \/
        exists x fp, tail = "."%char :: x :: fp /\ forallb isDigit (x :: fp) = true).
Proof.
  unfold canonicalDecimal. intros H.
  assert (Hbody : forall body,
    match dropWhile isDigit body with
    | [] => true
    | c :: fp => Ascii.eqb c "." && truthyStr fp && forallb isDigit fp
    end = true ->
    exists ip tail,
      body = ip ++ tail /\ forallb isDigit ip = true /\
      (tail = [] \/
       exists x fp, tail = "."%char :: x :: fp /\ forallb isDigit (x :: fp) = true)).
  { intros body Hb. exists (takeWhile isDigit body), (dropWhile isDigit body).
    split; [now rewrite takeWhile_dropWhile|]. split; [apply takeWhile_forallb|].
    destruct (dropWhile isDigit body) as [|c fp]; [now left|]. right.
    apply andb_true_iff in Hb as [Hb Hfp]. apply andb_true_iff in Hb as [Hc Hne].
    apply Ascii.eqb_eq in Hc. subst c.
    destruct fp as [|x fp]; [discriminate|]. now exists x, fp. }
  destruct s as [|c r].
  - destruct (Hbody [] H) as (ip & tail & E & Hip & Htail).
    exists [], ip, tail. repeat split; auto.
  - destruct (Ascii.eqb_spec c "-") as [->|Hc].
    + destruct (Hbody r H) as (ip & tail & -> & Hip & Htail).
      exists ["-"%char], ip, tail. repeat split; auto.
    + destruct (Hbody (c :: r) H) as (ip & tail & E & Hip & Htail).
      exists [], ip, tail. repeat split; auto.
Qed.

Lemma dropWhile_head (f : ascii -> bool) s :
  match s with x :: _ => f x = false | [] => True end -> dropWhile f s = s.
Proof. destruct s as [|x s]; [reflexivity|]. cbn. now intros ->. Qed.

Lemma trim_plain s :
  forallb (fun x => negb (isWhiteSpace x)) s = true -> trim s = s.
Proof.
  intros H. unfold trim.
  assert (Hd : forall t, forallb (fun x => negb (isWhiteSpace x)) t = true ->
                         dropWhile isWhiteSpace t = t).
  { intros t Ht. apply dropWhile_head. destruct t as [|x t]; [exact I|].
    cbn [forallb] in Ht. apply andb_true_iff in Ht as [Hx _].
    now destruct (isWhiteSpace x). }
  rewrite (Hd s H), Hd, rev_involutive; [reflexivity|].
  rewrite forallb_forall in *. intros x Hx. apply H. now apply in_rev.
Qed.

Lemma digitsValue_digits ds : forall acc,
  forallb isDigit ds = true -> exists m, digitsValue 10 acc ds = Some m.
Proof.
  induction ds as [|c ds IH]; intros acc H; [now exists acc|].
  cbn [forallb] in H. apply andb_true_iff in H as [Hc Hds].
  cbn [digitsValue]. unfold digitValue. unfold isDigit in Hc. rewrite Hc.
  apply andb_true_iff in Hc as [Hlo Hhi].
  apply Nat.leb_le in Hlo, Hhi.
  destruct (Z.ltb_spec (Z.of_nat (code c - 48)) 10) as [_|Hbad]; [|lia].
  now apply IH.
Qed.

Lemma classMagnitude_number m e : isNaN (classMagnitude m e) = false.
Proof.
  unfold classMagnitude.
  destruct (0 <=? e)%Z;
    match goal with |- context [if ?b then _ else _] => destruct b end;
    reflexivity.
Qed.

Lemma classUnsignedDecimal_digits ip tail :
  forallb isDigit ip = true ->
  (tail = [] \/
   exists x fp, tail = "."%char :: x :: fp /\ forallb isDigit (x :: fp) = true) ->
  existsb isDigit (ip ++ tail) = true ->
  isNaN (classUnsignedDecimal (ip ++ tail)) = false.
Proof.
  intros Hip Htail Hsome. unfold classUnsignedDecimal.
  assert (Hinf : eqs (ip ++ tail) (js "Infinity") = false).
  { destruct (eqs (ip ++ tail) (js "Infinity")) eqn:E; [|reflexivity].
    apply eqs_true in E. exfalso.
    destruct ip as [|c ip].
    - destruct Htail as [->|(x & fp & -> & _)]; discriminate E.
    - cbn [forallb] in Hip. apply andb_true_iff in Hip as [Hc _].
      injection E as -> _. discriminate Hc. }
  rewrite Hinf.
  destruct Htail as [->|(x & fp & -> & Hfp)].
  - rewrite app_nil_r in *.
    rewrite (takeWhile_all _ _ Hip), (dropWhile_all _ _ Hip), app_nil_r.
    destruct ip as [|c ip]; [discriminate Hsome|]. cbn [truthyStr negb andb].
    destruct (digitsValue_digits (c :: ip) 0 Hip) as (m & ->).
    apply classMagnitude_number.
  - rewrite takeWhile_app_stop, dropWhile_app_stop by (assumption || reflexivity).
    rewrite Ascii.eqb_refl.
    rewrite (takeWhile_all _ _ Hfp), (dropWhile_all _ _ Hfp).
    cbn [truthyStr negb andb]. rewrite andb_false_r.
    destruct (digitsValue_digits (ip ++ x :: fp) 0) as (m & ->).
    + now rewrite forallb_app, Hip.
    + apply classMagnitude_number.
Qed.

(** A canonical string with at least one digit converts to a number. *)
Lemma ToNumber_canonical s :
  canonicalDecimal s = true -> existsb isDigit s = true ->
  isNaN (ToNumber s) = false.
Proof.
  intros Hcanon Hsome.
  destruct (canonicalDecimal_parts s Hcanon) as (sign & ip & tail & -> & Hsign & Hip & Htail).
  assert (Hchars : forallb canonicalChar (sign ++ ip ++ tail) = true).
  { rewrite !forallb_app. repeat (apply andb_true_iff; split).
    - destruct Hsign as [->| ->]; reflexivity.
    - apply forallb_weaken with (f := isDigit); [apply isDigit_canonicalChar | assumption].
    - destruct Htail as [->|(x & fp & -> & Hfp)]; [reflexivity|].
      cbn [forallb]. change (canonicalChar ".") with true. cbn [andb].
      apply forallb_weaken with (f := isDigit) (s := x :: fp);
        [apply isDigit_canonicalChar | assumption]. }
  assert (Hbody : existsb isDigit (ip ++ tail) = true).
  { destruct Hsign as [->| ->]; [exact Hsome|]. exact Hsome. }
  assert (Hclass : ToNumber (sign ++ ip ++ tail) = classDecimal (sign ++ ip ++ tail)).
  { unfold ToNumber. rewrite trim_plain.
    - destruct (sign ++ ip ++ tail) as [|z [|x ds]] eqn:E.
      + destruct Hsign as [->| ->]; [|discriminate E].
        cbn [app] in E. rewrite E in Hbody. discriminate Hbody.
      + reflexivity.
      + cbn [forallb] in Hchars. apply andb_true_iff in Hchars as [_ Hx].
        apply andb_true_iff in Hx as [Hx _].
        destruct (canonicalChar_facts x Hx) as (_ & _ & -> & -> & -> & _).
        now destruct (Ascii.eqb z "0").
    - apply forallb_weaken with (f := canonicalChar); [|assumption].
      intros x Hx. destruct (canonicalChar_facts x Hx) as (-> & _). reflexivity. }
  rewrite Hclass.
  destruct Hsign as [->| ->].
  - cbn [app]. unfold classDecimal.
    destruct (ip ++ tail) as [|c r] eqn:E; [discriminate Hbody|].
    assert (Hc : Ascii.eqb c "+" || Ascii.eqb c "-" = false).
    { destruct ip as [|y ip].
      - destruct Htail as [->|(x & fp & -> & _)]; [discriminate E|].
        injection E as <- _. reflexivity.
      - injection E as <- _. cbn [forallb] in Hip.
        apply andb_true_iff in Hip as [Hy _].
        destruct (isDigit_facts y Hy) as (-> & _).
        destruct (canonicalChar_facts y (isDigit_canonicalChar y Hy)) as (_ & -> & _).
        reflexivity. }
    rewrite Hc, <- E.
    apply classUnsignedDecimal_digits; [assumption | assumption | now rewrite E].
  - cbn [app classDecimal]. cbn [Ascii.eqb Bool.eqb orb].
    now apply classUnsignedDecimal_digits.
Qed.

(** The round trip as two steps. *)
Lemma formatNumber_then_native locale d g s :
  decimalSeparator locale = [d] ->
  groupingSeparator locale = [g] ->
  Ascii.eqb d g = false ->
  numericChar d = false ->
  numericChar g = false ->
  literalEscape g = true ->
  canonicalDecimal s = true ->
  exists formatted,
    formatNumber biggystring_toFixed locale s noOptions = Ok formatted
    /\ formatToNativeNumber hostRegExp locale formatted = Ok s
    /\ (existsb isDigit s = true -> eqs formatted [d] = false).
Proof.
  intros Hd Hg Hdg Hnd Hng Hlit Hs.
  destruct (canonicalDecimal_shape s Hs) as (ints & tail & -> & Hints & Htail).
  assert (Hdot : forallb (fun x => negb (Ascii.eqb "." x)) ints = true).
  { apply forallb_weaken with (f := numericChar); [|assumption].
    intros x Hx. now apply numericChar_differs. }
  assert (Hgi : forallb (fun x => negb (Ascii.eqb g x)) ints = true).
  { apply forallb_weaken with (f := numericChar); [|assumption].
    intros x Hx. now apply numericChar_differs. }
  assert (Hdi : forallb (fun x => negb (Ascii.eqb d x)) ints = true).
  { apply forallb_weaken with (f := numericChar); [|assumption].
    intros x Hx. now apply numericChar_differs. }
  assert (Hre : groupingSeparatorRegExp hostRegExp [g] = Ok (RxChar g)).
  { unfold literalEscape in Hlit. cbn [groupingSeparatorRegExp].
    destruct (atomEscape g) as [x| | | |]; try discriminate.
    apply Ascii.eqb_eq in Hlit. now subst x. }
  eexists. split; [exact (formatNumber_plain biggystring_toFixed locale (ints ++ tail) false)|].
  unfold decimalsSuffix. rewrite Hd, Hg.
  unfold formatToNativeNumber. rewrite Hg, Hre. cbn [bind].
  unfold standardize. rewrite Hd. cbn [replaceAllEmpty]. change (js ".") with ["."%char].
  destruct Htail as [->|(x & fp & -> & Hfp)].
  - rewrite !app_nil_r. rewrite beforeSep_absent, afterSep_absent by assumption.
    rewrite app_nil_r. split.
    + rewrite groupIntegers_trailing, filter_groupIntegers by assumption.
      f_equal. now apply replaceFirst_absent.
    + intros Hsome. destruct (eqs (groupIntegers [g] ints) [d]) eqn:E; [|reflexivity].
      apply eqs_true in E. exfalso.
      pose proof (filter_groupIntegers g ints Hgi) as Hf. rewrite E in Hf.
      cbn [filter] in Hf. rewrite Ascii.eqb_sym, Hdg in Hf. cbn [negb] in Hf.
      subst ints. cbn [existsb] in Hsome. rewrite orb_false_r in Hsome.
      unfold numericChar in Hnd. now rewrite Hsome in Hnd.
  - assert (Hfpdot : forallb (fun y => negb (Ascii.eqb "." y)) (x :: fp) = true).
    { apply forallb_weaken with (f := isDigit); [|assumption].
      intros y Hy. apply numericChar_differs; [reflexivity | now apply isDigit_numericChar]. }
    assert (Hfpg : forallb (fun y => negb (Ascii.eqb g y)) (x :: fp) = true).
    { apply forallb_weaken with (f := isDigit); [|assumption].
      intros y Hy. apply numericChar_differs; [assumption | now apply isDigit_numericChar]. }
    rewrite beforeSep_first, afterSep_first by assumption.
    rewrite (@beforeSep_absent _ _ Hfpdot). split.
    + destruct (exists_last (l := x :: fp)) as (fp' & z & Efp); [discriminate|].
      assert (Hz : numericChar z = true).
      { apply isDigit_numericChar. rewrite forallb_forall in Hfp. apply Hfp.
        rewrite Efp. apply in_or_app. right. now left. }
      replace (groupIntegers [g] ints ++ [d] ++ x :: fp)
        with ((groupIntegers [g] ints ++ [d] ++ fp') ++ [z])
        by (rewrite Efp, <- !app_assoc; reflexivity).
      rewrite normalizeTrailing_numeric by assumption.
      rewrite <- !app_assoc, <- Efp.
      rewrite !filter_app, filter_groupIntegers, (@filter_keep _ _ Hfpg) by assumption.
      cbn [filter]. rewrite Ascii.eqb_sym, Hdg. cbn [negb app].
      f_equal. now rewrite replaceFirst_first.
    + intros _. destruct (eqs _ [d]) eqn:E; [|reflexivity].
      apply eqs_true in E. apply (f_equal (@length ascii)) in E.
      rewrite !length_app in E. cbn [length] in E. lia.
Qed.

(** X9: what formatNumber shows is accepted by isValidInput: under a locale
    as in the round trip, for every canonical decimal string with at least
    one digit, isValidInput(formatNumber(s)) is true. *)
Theorem isValidInput_accepts_formatted locale d g s :
  decimalSeparator locale = [d] ->
  groupingSeparator locale = [g] ->
  Ascii.eqb d g = false ->
  numericChar d = false ->
  numericChar g = false ->
  literalEscape g = true ->
  canonicalDecimal s = true ->
  existsb isDigit s = true ->
  bind (formatNumber biggystring_toFixed locale s noOptions)
       (isValidInput hostRegExp locale)
  = Ok true.
Proof.
  intros Hd Hg Hdg Hnd Hng Hlit Hs Hsome.
  destruct (formatNumber_then_native locale s Hd Hg Hdg Hnd Hng Hlit Hs)
    as (formatted & -> & Hnative & _).
  cbn [bind]. rewrite isValidInput_native, Hnative. cbn [bind].
  rewrite (ToNumber_canonical s Hs Hsome). cbn [negb]. now rewrite orb_true_r.
Qed.

End NativeNumber.

(** Any text, here "1,2a,3,", under the default locale. *)
Lemma formatToNativeNumber_no_grouping_left_witness :
  exists native,
    formatToNativeNumber strictHost EN_US_LOCALE (js "1,2a,3,") = Ok native
    /\ includes [","%char] native = false.
Proof.
  apply (@formatToNativeNumber_no_grouping_left strictHost EN_US_LOCALE "." "," (js "1,2a,3,"));
    reflexivity.
Defined.

(** "-1234567.5" under the ',' locale. *)
Lemma isValidInput_accepts_formatted_witness :
  bind (formatNumber toFixedModel DE_LOCALE (js "-1234567.5") noOptions)
       (isValidInput strictHost DE_LOCALE)
  = Ok true.
Proof.
  apply (@isValidInput_accepts_formatted toFixedModel strictHost DE_LOCALE "," "."
           (js "-1234567.5")); reflexivity.
Defined.

(* ================================================================== *)
(** ** More on prettifyNumber *)
(* ================================================================== *)

Section PrettifyNumber.

Implicit Types (input s : jsstring).

Lemma stripLeadingZeros_zero s : stripLeadingZeros ("0"%char :: s) = stripLeadingZeros s.
Proof. reflexivity. Qed.

Lemma stripLeadingZeros_head s :
  startsWith (js "0") (stripLeadingZeros s) = false.
Proof.
  change (js "0") with ["0"%char]. rewrite startsWith_single.
  induction s as [|x s IH]; [reflexivity|]. cbn [stripLeadingZeros].
  destruct (Ascii.eqb x "0") eqn:E; [exact IH|].
  now rewrite Ascii.eqb_sym.
Qed.

Lemma stripLeadingZeros_fixed s :
  startsWith (js "0") s = false -> stripLeadingZeros s = s.
Proof.
  change (js "0") with ["0"%char]. rewrite startsWith_single.
  destruct s as [|x s]; [reflexivity|]. cbn [stripLeadingZeros].
  rewrite Ascii.eqb_sym. now intros ->.
Qed.

Lemma stripLeadingZeros_repeat n s :
  stripLeadingZeros (repeat "0"%char n ++ s) = stripLeadingZeros s.
Proof. induction n as [|n IH]; [reflexivity | exact IH]. Qed.

(** X10: prettifyNumber is idempotent under every locale: prettifying a
    prettified text changes nothing. *)
Theorem prettifyNumber_idempotent locale input :
  prettifyNumber locale (prettifyNumber locale input) = prettifyNumber locale input.
Proof.
  unfold prettifyNumber.
  pose proof (stripLeadingZeros_head input) as Hhead.
  pose proof (stripLeadingZeros_fixed _ Hhead) as Hfix.
  destruct (startsWith (decimalSeparator locale) (stripLeadingZeros input)) eqn:E.
  - change (js "0" ++ stripLeadingZeros input)
      with ("0"%char :: stripLeadingZeros input).
    rewrite stripLeadingZeros_zero, Hfix, E. reflexivity.
  - now rewrite Hfix, E.
Qed.

(** X11: leading zeros never matter to prettifyNumber, and text made of
    zeros only (a lone "0" included) comes back empty, under every locale
    with a non-empty decimal separator. *)
Theorem prettifyNumber_zeros locale n :
  truthyStr (decimalSeparator locale) = true ->
  (forall s, prettifyNumber locale (repeat "0"%char n ++ s) = prettifyNumber locale s)
  /\ prettifyNumber locale (repeat "0"%char n) = js "".
Proof.
  intros Hd. split.
  - intros s. unfold prettifyNumber. now rewrite stripLeadingZeros_repeat.
  - unfold prettifyNumber. rewrite <- (app_nil_r (repeat "0"%char n)).
    rewrite stripLeadingZeros_repeat. cbn [stripLeadingZeros].
    destruct (decimalSeparator locale); [discriminate Hd | reflexivity].
Qed.

(** X12: the result of prettifyNumber either does not start with '0', or is
    one '0' in front of text that starts with the decimal separator and not
    with '0'. *)
Theorem prettifyNumber_leading locale input :
  startsWith (js "0") (prettifyNumber locale input) = false
  \/ exists rest,
       prettifyNumber locale input = "0"%char :: rest
       /\ startsWith (decimalSeparator locale) rest = true
       /\ startsWith (js "0") rest = false.
Proof.
  unfold prettifyNumber.
  pose proof (stripLeadingZeros_head input) as Hhead.
  destruct (startsWith (decimalSeparator locale) (stripLeadingZeros input)) eqn:E.
  - right. exists (stripLeadingZeros input). repeat split; assumption.
  - left. assumption.
Qed.

End PrettifyNumber.

(** "000" under the default locale. *)
Lemma prettifyNumber_zeros_witness :
  (forall s, prettifyNumber EN_US_LOCALE (repeat "0"%char 3 ++ s) = prettifyNumber EN_US_LOCALE s)
  /\ prettifyNumber EN_US_LOCALE (repeat "0"%char 3) = js "".
Proof.
  apply (@prettifyNumber_zeros EN_US_LOCALE 3). reflexivity.
Defined.

(* ================================================================== *)
(** ** More on truncateDecimals *)
(* ================================================================== *)

Section TruncateDecimalsMore.

Implicit Types (input frac : jsstring) (d : ascii).

Lemma slice_all (s : jsstring) : slice s 0 None = s.
Proof.
  unfold slice, relIndex. cbn [Z.ltb Z.compare Z.to_nat Nat.min skipn].
  rewrite Nat.sub_0_r. apply firstn_all.
Qed.

Lemma slice_from_end (s : jsstring) (p : Z) :
  (p < 0)%Z -> slice s 0 (Some p) = firstn (length s - Z.to_nat (- p)) s.
Proof.
  intros Hp. unfold slice, relIndex.
  destruct (Z.ltb_spec p 0); [|lia].
  cbn [Z.ltb Z.compare Z.to_nat Nat.min skipn]. rewrite Nat.sub_0_r.
  f_equal. lia.
Qed.

Lemma beforeSep_none d (s : jsstring) :
  forallb (fun x => negb (Ascii.eqb d x)) (beforeSep d s) = true.
Proof. apply takeWhile_forallb. Qed.

Lemma afterSep_none d (s frac : jsstring) :
  afterSep d s = Some frac -> forallb (fun x => negb (Ascii.eqb d x)) frac = true.
Proof.
  unfold afterSep. destruct (dropWhile _ s); [discriminate|].
  intros [= <-]. apply beforeSep_none.
Qed.

(** With the separator present, the result is made of the first two parts
    of the split. *)
Lemma truncateDecimals_parts locale d input precision allowBlank :
  decimalSeparator locale = [d] ->
  includes [d] input = true ->
  exists frac,
    afterSep d input = Some frac
    /\ truncateDecimals locale input precision allowBlank
       = Ok (beforeSep d input ++ [d] ++ slice frac 0 precision).
Proof.
  intros Hd Hin. destruct (afterSep_includes _ _ Hin) as (frac & Hfrac).
  exists frac. split; [assumption|].
  unfold truncateDecimals. rewrite Hd, (includes_not_nil _ _ Hin), Hin. cbn [negb].
  now rewrite split_single_0, split_single_1, Hfrac.
Qed.

(** Without the separator only the empty input changes. *)
Lemma truncateDecimals_absent locale d input precision allowBlank :
  decimalSeparator locale = [d] ->
  includes [d] input = false ->
  truncateDecimals locale input precision allowBlank
  = Ok (if eqs input [] then (if allowBlank then js "" else js "0") else input).
Proof.
  intros Hd Hin. unfold truncateDecimals. rewrite Hd.
  destruct (eqs input []) eqn:E; [|now rewrite Hin].
  destruct allowBlank; [reflexivity|].
  change (js "0") with ["0"%char]. rewrite includes_single. cbn [existsb].
  destruct (Ascii.eqb_spec d "0") as [->|]; [|reflexivity].
  cbn [orb negb]. rewrite split_single_0, split_single_1.
  cbn [beforeSep afterSep takeWhile dropWhile Ascii.eqb Bool.eqb negb template app].
  destruct precision as [p|]; [|now rewrite slice_all].
  unfold slice. cbn [length relIndex]. 
  now rewrite skipn_nil, firstn_nil.
Qed.

Lemma truncateDecimals_twice_nat locale d input (P Q : nat) (allowBlank : bool) :
  decimalSeparator locale = [d] ->
  bind (truncateDecimals locale input (Some (Z.of_nat P)) allowBlank)
       (fun once => truncateDecimals locale once (Some (Z.of_nat Q)) allowBlank)
  = truncateDecimals locale input (Some (Z.of_nat (Nat.min P Q))) allowBlank.
Proof.
  intros Hd.
  destruct (includes [d] input) eqn:Hin.
  - destruct (truncateDecimals_parts locale _ (Some (Z.of_nat P)) allowBlank Hd Hin)
      as (frac & Hfrac & ->).
    destruct (truncateDecimals_parts locale _ (Some (Z.of_nat (Nat.min P Q))) allowBlank Hd Hin)
      as (frac' & Hfrac' & ->).
    rewrite Hfrac in Hfrac'. injection Hfrac' as <-.
    cbn [bind].
    pose proof (beforeSep_none d input) as Hb.
    pose proof (afterSep_none _ _ Hfrac) as Hf.
    rewrite !slice_prefix.
    assert (Hcut : forallb (fun x => negb (Ascii.eqb d x)) (firstn P frac) = true).
    { rewrite forallb_forall in *. intros x Hx. apply Hf.
      rewrite <- (firstn_skipn P frac). apply in_or_app. now left. }
    assert (Hin2 : includes [d] (beforeSep d input ++ [d] ++ firstn P frac) = true).
    { rewrite includes_single, existsb_app. cbn. rewrite Ascii.eqb_refl.
      apply orb_true_iff. right. reflexivity. }
    destruct (truncateDecimals_parts locale _ (Some (Z.of_nat Q)) allowBlank Hd Hin2)
      as (frac2 & Hfrac2 & ->).
    cbn [app] in Hfrac2. rewrite afterSep_first in Hfrac2 by assumption.
    rewrite (@beforeSep_absent _ _ Hcut) in Hfrac2. injection Hfrac2 as <-.
    cbn [app]. rewrite beforeSep_first by assumption.
    rewrite slice_prefix, firstn_firstn, Nat.min_comm. reflexivity.
  - rewrite !(truncateDecimals_absent locale _ _ allowBlank Hd Hin). cbn [bind].
    destruct (eqs input []) eqn:E.
    + destruct allowBlank.
      * now rewrite (@truncateDecimals_absent locale d (js "") _ true Hd eq_refl).
      * change (js "0") with ["0"%char].
        destruct (includes [d] ["0"%char]) eqn:Hz.
        -- destruct (truncateDecimals_parts locale _ (Some (Z.of_nat Q)) false Hd Hz)
             as (frac & Hfrac & ->).
           rewrite includes_single in Hz. cbn [existsb] in Hz.
           rewrite orb_false_r in Hz. apply Ascii.eqb_eq in Hz. subst d.
           cbn in Hfrac. injection Hfrac as <-.
           rewrite slice_prefix, firstn_nil. reflexivity.
        -- now rewrite (truncateDecimals_absent locale _ _ false Hd Hz).
    + rewrite (truncateDecimals_absent locale _ _ allowBlank Hd Hin). now rewrite E.
Qed.

(** X13: truncating twice is truncating once to the smaller precision:
    truncateDecimals(truncateDecimals(input, p), q) is
    truncateDecimals(input, min(p, q)) for non-negative p and q, and so
    truncateDecimals(., p) is idempotent. *)
Theorem truncateDecimals_twice locale d input (p q : Z) (allowBlank : bool) :
  decimalSeparator locale = [d] ->
  (0 <= p)%Z -> (0 <= q)%Z ->
  bind (truncateDecimals locale input (Some p) allowBlank)
       (fun once => truncateDecimals locale once (Some q) allowBlank)
  = truncateDecimals locale input (Some (Z.min p q)) allowBlank.
Proof.
  intros Hd Hp Hq.
  assert (Ep : p = Z.of_nat (Z.to_nat p)) by lia.
  assert (Eq : q = Z.of_nat (Z.to_nat q)) by lia.
  revert Ep Eq. generalize (Z.to_nat p) (Z.to_nat q). intros P Q -> ->.
  rewrite <- Nat2Z.inj_min. now apply truncateDecimals_twice_nat with (d := d).
Qed.

(** X14: the precision is the end index of a slice: left out, the whole
    fractional part is kept; negative, it counts from the end, so that
    precision -k drops the last k code units of the fractional part. *)
Theorem truncateDecimals_slice_precision locale d integers frac (k : nat) (allowBlank : bool) :
  decimalSeparator locale = [d] ->
  includes [d] integers = false ->
  includes [d] frac = false ->
  0 < k ->
  truncateDecimals locale (integers ++ [d] ++ frac) None allowBlank
  = Ok (integers ++ [d] ++ frac)
  /\ truncateDecimals locale (integers ++ [d] ++ frac) (Some (- Z.of_nat k)%Z) allowBlank
     = Ok (integers ++ [d] ++ firstn (length frac - k) frac).
Proof.
  intros Hd Hi Hf Hk.
  apply includes_false_forallb in Hi. apply includes_false_forallb in Hf.
  assert (Hin : includes [d] (integers ++ [d] ++ frac) = true).
  { rewrite includes_single, existsb_app. cbn. rewrite Ascii.eqb_refl.
    apply orb_true_iff. right. reflexivity. }
  assert (Hfrac : afterSep d (integers ++ [d] ++ frac) = Some frac).
  { cbn [app]. rewrite afterSep_first by assumption.
    now rewrite (@beforeSep_absent _ _ Hf). }
  assert (Hint : beforeSep d (integers ++ [d] ++ frac) = integers).
  { cbn [app]. now apply beforeSep_first. }
  split.
  - destruct (truncateDecimals_parts locale _ None allowBlank Hd Hin) as (frac' & Hfrac' & ->).
    rewrite Hfrac in Hfrac'. injection Hfrac' as <-.
    now rewrite Hint, slice_all.
  - destruct (truncateDecimals_parts locale _ (Some (- Z.of_nat k)%Z) allowBlank Hd Hin)
      as (frac' & Hfrac' & ->).
    rewrite Hfrac in Hfrac'. injection Hfrac' as <-.
    rewrite Hint, slice_from_end by lia.
    replace (Z.to_nat (- - Z.of_nat k)) with k by lia. reflexivity.
Qed.

End TruncateDecimalsMore.

(** "12.34567" cut to 4 and then to 2 places. *)
Lemma truncateDecimals_twice_witness :
  bind (truncateDecimals EN_US_LOCALE (js "12.34567") (Some 4%Z) false)
       (fun once => truncateDecimals EN_US_LOCALE once (Some 2%Z) false)
  = truncateDecimals EN_US_LOCALE (js "12.34567") (Some (Z.min 4 2)) false.
Proof.
  apply (@truncateDecimals_twice EN_US_LOCALE "." (js "12.34567") 4%Z 2%Z false);
    [reflexivity | lia | lia].
Defined.

(** "12.34567" with no precision, and with precision -2. *)
Lemma truncateDecimals_slice_precision_witness :
  truncateDecimals EN_US_LOCALE (js "12" ++ ["."%char] ++ js "34567") None false
  = Ok (js "12" ++ ["."%char] ++ js "34567")
  /\ truncateDecimals EN_US_LOCALE (js "12" ++ ["."%char] ++ js "34567")
       (Some (- Z.of_nat 2)%Z) false
     = Ok (js "12" ++ ["."%char] ++ firstn (length (js "34567") - 2) (js "34567")).
Proof.
  apply (@truncateDecimals_slice_precision EN_US_LOCALE "." (js "12") (js "34567") 2 false);
    [reflexivity | reflexivity | reflexivity | lia].
Defined.

(* ================================================================== *)
(** ** The locale slot over the life of the module *)
(* ================================================================== *)

Section LocaleSlot.

Lemma setIntlLocale_complete_step (l : option LocaleDescriptor) (w : World) :
  completeLocale (locale w) = true ->
  completeLocale (locale (snd (setIntlLocale l w))) = true.
Proof.
  intros Hw. destruct l as [d|]; [|exact Hw].
  unfold setIntlLocale.
  destruct (descDecimal d) as [dec|], (descGrouping d) as [grp|],
    (descIdentifier d) as [ident|]; try reflexivity.
  destruct (truthyStr dec) eqn:E1, (truthyStr grp) eqn:E2, (truthyStr ident) eqn:E3;
    cbn [negb orb snd locale]; try reflexivity.
  unfold completeLocale. cbn [decimalSeparator groupingSeparator localeIdentifier].
  now rewrite E1, E2, E3.
Qed.

Lemma setIntlLocaleAll_complete calls : forall w,
  completeLocale (locale w) = true ->
  completeLocale (locale (setIntlLocaleAll calls w)) = true.
Proof.
  induction calls as [|l calls IH]; intros w Hw; [exact Hw|].
  cbn [setIntlLocaleAll fold_left]. apply IH. now apply setIntlLocale_complete_step.
Qed.

(** X15: whatever is passed to setIntlLocale, and however often (null,
    partial and complete descriptors alike), the locale slot keeps holding a
    non-empty identifier and non-empty separators, and so truncateDecimals
    never throws in any state the module can reach. *)
Theorem locale_slot_stays_complete (calls : list (option LocaleDescriptor)) :
  completeLocale (locale (setIntlLocaleAll calls initialWorld)) = true
  /\ forall input precision allowBlank,
       exists out,
         truncateDecimals (locale (setIntlLocaleAll calls initialWorld))
           input precision allowBlank = Ok out.
Proof.
  pose proof (setIntlLocaleAll_complete calls initialWorld eq_refl) as H.
  split; [exact H|].
  intros input precision allowBlank.
  unfold completeLocale in H. apply andb_true_iff in H as [H _].
  apply andb_true_iff in H as [Hd _].
  pose proof (truncateDecimals_returns _ input precision allowBlank Hd) as Hr.
  destruct (truncateDecimals _ input precision allowBlank) as [out|];
    [now exists out | discriminate Hr].
Qed.

(** X16: the boot code never throws, whatever the host reports: it stores
    the host's first language tag (or "en_US" when the host lists no
    locale) with the host's separators when all three are non-empty, and
    the default locale, with one warning, otherwise. *)
Theorem bootLocale_never_throws (languageTags : list jsstring)
    (hostDecimal hostGrouping : jsstring) :
  let tag := hd (js "en_US") languageTags in
  fst (bootLocale languageTags hostDecimal hostGrouping) = Ok tt
  /\ snd (bootLocale languageTags hostDecimal hostGrouping)
     = (if truthyStr hostDecimal && truthyStr hostGrouping && truthyStr tag
        then {| locale := {| localeIdentifier := tag;
                             decimalSeparator := hostDecimal;
                             groupingSeparator := hostGrouping |};
                console := [] |}
        else {| locale := EN_US_LOCALE; console := [warning] |})
  /\ completeLocale (locale (snd (bootLocale languageTags hostDecimal hostGrouping))) = true.
Proof.
  intros tag. unfold bootLocale.
  assert (Htag : match nth_error languageTags 0 with
                 | Some t => t
                 | None => js "en_US"
                 end = tag) by (destruct languageTags; reflexivity).
  rewrite Htag. unfold setIntlLocale.
  cbn [descDecimal descGrouping descIdentifier].
  destruct (truthyStr hostDecimal) eqn:E1, (truthyStr hostGrouping) eqn:E2,
    (truthyStr tag) eqn:E3; cbn [negb orb andb fst snd locale]; repeat split.
  unfold completeLocale. cbn [decimalSeparator groupingSeparator localeIdentifier].
  now rewrite E1, E2, E3.
Qed.

Lemma includes_single_app c (a b : jsstring) :
  includes [c] (a ++ b) = includes [c] a || includes [c] b.
Proof. rewrite !includes_single. apply existsb_app. Qed.

(** An identifier without '_' (a BCP 47 tag such as "en-US") is the tag. *)
Lemma localeTag_plain locale :
  includes ["_"%char] (localeIdentifier locale) = false ->
  localeTag locale = localeIdentifier locale.
Proof.
  intros H. unfold localeTag. change (js "_") with ["_"%char].
  now apply replaceFirst_absent, includes_false_forallb.
Qed.

(** X17: the tag given to Intl.DateTimeFormat by formatExpDate and
    formatTime has only the first '_' of the identifier turned into '-':
    "lang_REGION" becomes "lang-REGION", and the tag still holds a '_'
    exactly when the identifier holds a second one. *)
Theorem localeTag_first_underscore locale lang region :
  includes ["_"%char] lang = false ->
  localeIdentifier locale = lang ++ js "_" ++ region ->
  localeTag locale = lang ++ js "-" ++ region
  /\ includes ["_"%char] (localeTag locale) = includes ["_"%char] region.
Proof.
  intros Hlang Hid. pose proof (includes_false_forallb _ _ Hlang) as Hl.
  unfold localeTag. rewrite Hid. change (js "_") with ["_"%char].
  cbn [app]. rewrite replaceFirst_first by assumption.
  split; [reflexivity|].
  rewrite !includes_single_app, Hlang. reflexivity.
Qed.

End LocaleSlot.

(** "zh_Hans_CN": the second '_' stays. *)
Lemma localeTag_first_underscore_witness :
  localeTag {| localeIdentifier := js "zh_Hans_CN"; decimalSeparator := js ".";
               groupingSeparator := js "," |}
  = js "zh" ++ js "-" ++ js "Hans_CN"
  /\ includes ["_"%char]
       (localeTag {| localeIdentifier := js "zh_Hans_CN"; decimalSeparator := js ".";
                     groupingSeparator := js "," |})
     = includes ["_"%char] (js "Hans_CN").
Proof.
  apply (@localeTag_first_underscore
           {| localeIdentifier := js "zh_Hans_CN"; decimalSeparator := js ".";
              groupingSeparator := js "," |} (js "zh") (js "Hans_CN"));
    reflexivity.
Defined.

(* ================================================================== *)
(** ** WalletList.ui.js: getNewOrder *)
(* ================================================================== *)

From Stdlib Require Import Permutation.

Import WalletList.

Section GetNewOrder.

Variable A : Type.

Implicit Types (order rest : list (option A)) (x : option A).

(** What is left of the array once the row at [from] is taken out. *)
Lemma nth_error_parts order (from : nat) x :
  nth_error order from = Some x ->
  order = firstn from order ++ x :: skipn (S from) order
  /\ from < length order.
Proof.
  revert from. induction order as [|y order IH]; intros [|from] H; try discriminate.
  - cbn in H. injection H as ->. split; [reflexivity | cbn; lia].
  - cbn [nth_error] in H. destruct (IH from H) as [E Hlt].
    split; [|cbn; lia]. cbn [firstn skipn app]. f_equal. exact E.
Qed.

(** In range, [getNewOrder] takes the row out and puts it back at [to],
    or at the end when [to] is past it. *)
Lemma getNewOrder_in_range order (from to : nat) x :
  nth_error order from = Some x ->
  getNewOrder order (Z.of_nat to) (Z.of_nat from)
  = firstn (Nat.min to (length order - 1))
      (firstn from order ++ skipn (S from) order)
    ++ x :: skipn (Nat.min to (length order - 1))
              (firstn from order ++ skipn (S from) order).
Proof.
  intros Hx. destruct (nth_error_parts order from Hx) as [Hparts Hlt].
  unfold getNewOrder, splice, relIndex.
  destruct (Z.ltb_spec (Z.of_nat from) 0); [lia|].
  destruct (Z.ltb_spec (Z.of_nat to) 0); [lia|].
  cbn [app]. rewrite !Nat2Z.id.
  rewrite (Nat.min_l from (length order)) by lia.
  replace (Nat.min (Z.to_nat (Z.max 1 0)) (length order - from)) with 1 by lia.
  replace (Nat.min (Z.to_nat (Z.max 0 0)) _) with 0 by lia.
  cbn [snd]. rewrite Nat.add_0_r, Nat.add_1_r.
  assert (Hrem : firstn 1 (skipn from order) = [x]).
  { rewrite Hparts at 1. rewrite skipn_app, length_firstn, Nat.min_l by lia.
    rewrite Nat.sub_diag, skipn_all2 by (rewrite length_firstn; lia). reflexivity. }
  rewrite Hrem. unfold first. cbn [nth_error app].
  assert (Hlen : length (firstn from order ++ skipn (S from) order) = length order - 1).
  { rewrite length_app, length_firstn, length_skipn. lia. }
  rewrite Hlen. reflexivity.
Qed.

(** X18: moving a row of the list: for a valid row index [from] and any
    target index [to], getNewOrder returns a list of the same length that is
    a permutation of the old order, with the moved row at index
    min(to, length - 1) and every other row in its old relative order. *)
Theorem getNewOrder_moves_row order (from to : nat) x :
  nth_error order from = Some x ->
  let rest := firstn from order ++ skipn (S from) order in
  let target := Nat.min to (length order - 1) in
  let newOrder := getNewOrder order (Z.of_nat to) (Z.of_nat from) in
  newOrder = firstn target rest ++ x :: skipn target rest
  /\ length newOrder = length order
  /\ Permutation order newOrder
  /\ nth_error newOrder target = Some x.
Proof.
  intros Hx rest target newOrder.
  destruct (nth_error_parts order from Hx) as [Hparts Hlt].
  assert (Hnew : newOrder = firstn target rest ++ x :: skipn target rest)
    by (now apply getNewOrder_in_range).
  assert (Hlen : length rest = length order - 1).
  { unfold rest. rewrite length_app, length_firstn, length_skipn. lia. }
  assert (Hperm : Permutation (x :: rest) newOrder).
  { rewrite Hnew. rewrite <- (firstn_skipn target rest) at 1.
    apply Permutation_middle. }
  repeat split.
  - exact Hnew.
  - rewrite <- (Permutation_length Hperm). cbn [length]. lia.
  - rewrite Hparts at 1. rewrite <- Hperm. symmetry. apply Permutation_middle.
  - rewrite Hnew, nth_error_app2 by (rewrite length_firstn; lia).
    rewrite length_firstn, Hlen, Nat.min_l by (unfold target; lia).
    now rewrite Nat.sub_diag.
Qed.

(** X19: dropping a row where it was picked up changes nothing, and moving
    a row from [from] to [to] and then back from [to] to [from] restores the
    order, for valid row indices. *)
Theorem getNewOrder_back_and_forth order (from to : nat) :
  from < length order ->
  to < length order ->
  getNewOrder order (Z.of_nat from) (Z.of_nat from) = order
  /\ getNewOrder (getNewOrder order (Z.of_nat to) (Z.of_nat from))
       (Z.of_nat from) (Z.of_nat to)
     = order.
Proof.
  intros Hfrom Hto.
  destruct (nth_error order from) as [x|] eqn:Hx;
    [|apply nth_error_None in Hx; lia].
  destruct (nth_error_parts order from Hx) as [Hparts _].
  set (rest := firstn from order ++ skipn (S from) order).
  assert (Hlen : length rest = length order - 1).
  { unfold rest. rewrite length_app, length_firstn, length_skipn. lia. }
  assert (Hfirst : firstn from rest = firstn from order).
  { unfold rest. rewrite firstn_app, length_firstn, Nat.min_l by lia.
    rewrite Nat.sub_diag, firstn_firstn, Nat.min_id. cbn. now rewrite app_nil_r. }
  assert (Hskip : skipn from rest = skipn (S from) order).
  { unfold rest. rewrite skipn_app, length_firstn, Nat.min_l by lia.
    rewrite Nat.sub_diag, skipn_all2 by (rewrite length_firstn; lia). reflexivity. }
  split.
  - rewrite (getNewOrder_in_range order from from Hx). fold rest.
    rewrite Nat.min_l by lia. rewrite Hfirst, Hskip. now symmetry.
  - rewrite (getNewOrder_in_range order from to Hx). fold rest.
    rewrite (Nat.min_l to) by lia.
    set (moved := firstn to rest ++ x :: skipn to rest).
    assert (Hmoved : nth_error moved to = Some x).
    { unfold moved. rewrite nth_error_app2 by (rewrite length_firstn; lia).
      rewrite length_firstn, Nat.min_l by lia. now rewrite Nat.sub_diag. }
    assert (Hmlen : length moved = length order).
    { unfold moved. rewrite length_app. cbn [length].
      rewrite length_firstn, length_skipn. lia. }
    rewrite (getNewOrder_in_range moved to from Hmoved). rewrite Hmlen.
    rewrite (Nat.min_l from) by lia.
    assert (Hrest : firstn to moved ++ skipn (S to) moved = rest).
    { unfold moved.
      rewrite firstn_app, length_firstn, Nat.min_l by lia.
      rewrite Nat.sub_diag, firstn_firstn, Nat.min_id. cbn [firstn].
      rewrite app_nil_r.
      rewrite skipn_app, length_firstn, Nat.min_l by lia.
      rewrite skipn_all2 by (rewrite length_firstn; lia).
      replace (S to - to) with 1 by lia. cbn [skipn app].
      apply firstn_skipn. }
    rewrite Hrest, Hfirst, Hskip. now symmetry.
Qed.

(** X20: a row index past the end takes nothing out, and what goes in is
    undefined: the list grows by one undefined entry, at index
    min(to, length). *)
Theorem getNewOrder_from_past_end order (from to : nat) :
  length order <= from ->
  getNewOrder order (Z.of_nat to) (Z.of_nat from)
  = firstn (Nat.min to (length order)) order
    ++ None :: skipn (Nat.min to (length order)) order
  /\ length (getNewOrder order (Z.of_nat to) (Z.of_nat from)) = S (length order).
Proof.
  intros Hfrom.
  assert (E : getNewOrder order (Z.of_nat to) (Z.of_nat from)
              = firstn (Nat.min to (length order)) order
                ++ None :: skipn (Nat.min to (length order)) order).
  { unfold getNewOrder, splice, relIndex.
    destruct (Z.ltb_spec (Z.of_nat from) 0); [lia|].
    destruct (Z.ltb_spec (Z.of_nat to) 0); [lia|].
    cbn [app]. rewrite !Nat2Z.id.
    rewrite (Nat.min_r from (length order)) by lia.
    rewrite Nat.sub_diag, Nat.min_0_r, Nat.add_0_r.
    rewrite skipn_all, firstn_all, app_nil_r. cbn [firstn snd].
    unfold first. cbn [nth_error app].
    replace (Nat.min (Z.to_nat (Z.max 0 0)) _) with 0 by lia.
    now rewrite Nat.add_0_r. }
  split; [exact E|].
  rewrite E, length_app. cbn [length]. rewrite length_firstn, length_skipn. lia.
Qed.

End GetNewOrder.

(** Moving the first of three wallets to the end. *)
Lemma getNewOrder_moves_row_witness :
  getNewOrder [Some 1; Some 2; Some 3] (Z.of_nat 2) (Z.of_nat 0)
  = firstn (Nat.min 2 (length [Some 1; Some 2; Some 3] - 1))
      (firstn 0 [Some 1; Some 2; Some 3] ++ skipn 1 [Some 1; Some 2; Some 3])
    ++ Some 1
       :: skipn (Nat.min 2 (length [Some 1; Some 2; Some 3] - 1))
            (firstn 0 [Some 1; Some 2; Some 3] ++ skipn 1 [Some 1; Some 2; Some 3])
  /\ length (getNewOrder [Some 1; Some 2; Some 3] (Z.of_nat 2) (Z.of_nat 0))
     = length [Some 1; Some 2; Some 3]
  /\ Permutation [Some 1; Some 2; Some 3]
       (getNewOrder [Some 1; Some 2; Some 3] (Z.of_nat 2) (Z.of_nat 0))
  /\ nth_error (getNewOrder [Some 1; Some 2; Some 3] (Z.of_nat 2) (Z.of_nat 0))
       (Nat.min 2 (length [Some 1; Some 2; Some 3] - 1))
     = Some (Some 1).
Proof.
  apply (@getNewOrder_moves_row nat [Some 1; Some 2; Some 3] 0 2 (Some 1)).
  reflexivity.
Defined.

(** The first wallet, dropped where it was and moved to the end and back. *)
Lemma getNewOrder_back_and_forth_witness :
  getNewOrder [Some 1; Some 2; Some 3] (Z.of_nat 0) (Z.of_nat 0) = [Some 1; Some 2; Some 3]
  /\ getNewOrder (getNewOrder [Some 1; Some 2; Some 3] (Z.of_nat 2) (Z.of_nat 0))
       (Z.of_nat 0) (Z.of_nat 2)
     = [Some 1; Some 2; Some 3].
Proof.
  apply (@getNewOrder_back_and_forth nat [Some 1; Some 2; Some 3] 0 2); cbn; lia.
Defined.

(** A row index of 5 in a list of two. *)
Lemma getNewOrder_from_past_end_witness :
  getNewOrder [Some 1; Some 2] (Z.of_nat 0) (Z.of_nat 5)
  = firstn (Nat.min 0 (length [Some 1; Some 2])) [Some 1; Some 2]
    ++ None :: skipn (Nat.min 0 (length [Some 1; Some 2])) [Some 1; Some 2]
  /\ length (getNewOrder [Some 1; Some 2] (Z.of_nat 0) (Z.of_nat 5))
     = S (length [Some 1; Some 2]).
Proof.
  apply (@getNewOrder_from_past_end nat [Some 1; Some 2] 5 0). cbn. lia.
Defined.

(* ================================================================== *)
(** ** BITPAY.merchantName *)
(* ================================================================== *)

Import SendConfirmation.

Section MerchantName.

Implicit Types (sep s a b memo : jsstring).

Lemma startsWith_app_self sep b : startsWith sep (sep ++ b) = true.
Proof.
  induction sep as [|c sep IH]; [reflexivity|].
  cbn [app startsWith]. now rewrite Ascii.eqb_refl.
Qed.

(** A separator that has been found is passed over as a whole. *)
Lemma splitFrom_skip sep (w : jsstring) s :
  splitFrom sep (length w) (w ++ s) = splitFrom sep 0 s.
Proof. induction w as [|c w IH]; [reflexivity | exact IH]. Qed.

(** Without an occurrence of the separator the split has one part. *)
Lemma splitFrom_absent sep s :
  includes sep s = false -> splitFrom sep 0 s = [s].
Proof.
  induction s as [|c s IH]; [reflexivity|].
  cbn [includes splitFrom]. intros H. apply orb_false_iff in H as [Hhere Hlater].
  rewrite Hhere, (IH Hlater). reflexivity.
Qed.

Lemma forallb_map_seq (f : nat -> bool) (g : nat -> nat) (l : list nat) :
  forallb f (map g l) = forallb (fun i => f (g i)) l.
Proof.
  induction l as [|i l IH]; [reflexivity|]. cbn [map forallb]. now rewrite IH.
Qed.

(** The first occurrence of the separator ends the first part. *)
Lemma splitFrom_first sep a b :
  sep <> [] ->
  noMatchBefore sep (length a) (a ++ sep ++ b) = true ->
  splitFrom sep 0 (a ++ sep ++ b) = a :: splitFrom sep 0 b.
Proof.
  intros Hsep. unfold noMatchBefore. induction a as [|c a IH]; intros H.
  - destruct sep as [|c0 sep]; [congruence|].
    cbn [app]. pose proof (startsWith_app_self (c0 :: sep) b) as Hs.
    cbn [app] in Hs. cbn [splitFrom]. rewrite Hs.
    replace (length (c0 :: sep) - 1) with (length sep) by (cbn [length]; lia).
    now rewrite splitFrom_skip.
  - cbn [length seq forallb] in H. apply andb_true_iff in H as [Hhere Hlater].
    cbn [skipn app] in Hhere. cbn [app splitFrom].
    destruct (startsWith sep (c :: a ++ sep ++ b)); [discriminate Hhere|].
    rewrite IH; [reflexivity|].
    rewrite <- seq_shift, forallb_map_seq in Hlater. exact Hlater.
Qed.

(** X21: merchantName(memo) is undefined exactly when the memo does not
    contain " for merchant ". *)
Theorem merchantName_undefined memo :
  merchantName memo = None <-> includes merchantSeparator memo = false.
Proof.
  unfold merchantName, split.
  change merchantSeparator with (" "%char :: js "for merchant ").
  set (sep := " "%char :: js "for merchant ").
  split.
  - intros H. destruct (includes sep memo) eqn:E; [|reflexivity].
    destruct (@includes_splitFrom sep memo) as (x & y & gs & Hsplit);
      [discriminate | assumption|].
    rewrite Hsplit in H. discriminate H.
  - intros H. now rewrite (splitFrom_absent sep memo H).
Qed.

(** X22: for a memo "prefix for merchant name" in which the separator
    occurs first right after the prefix and not again in the name,
    merchantName returns the name. *)
Theorem merchantName_after_separator prefix name :
  noMatchBefore merchantSeparator (length prefix) (prefix ++ merchantSeparator ++ name) = true ->
  includes merchantSeparator name = false ->
  merchantName (prefix ++ merchantSeparator ++ name) = Some name.
Proof.
  intros Hfirst Hname. unfold merchantName, split.
  change merchantSeparator with (" "%char :: js "for merchant ") in *.
  set (sep := " "%char :: js "for merchant ") in *.
  rewrite (@splitFrom_first sep prefix name) by (discriminate || assumption).
  now rewrite (splitFrom_absent sep name Hname).
Qed.

End MerchantName.

(** The memo of the example in the source. *)
Lemma merchantName_after_separator_witness :
  merchantName
    (js "Payment request for BitPay invoice DKffym7WxX6kzJ73yfYS7s"
       ++ merchantSeparator ++ js "Electronic Frontier Foundation")
  = Some (js "Electronic Frontier Foundation").
Proof.
  apply (@merchantName_after_separator
           (js "Payment request for BitPay invoice DKffym7WxX6kzJ73yfYS7s")
           (js "Electronic Frontier Foundation")); reflexivity.
Defined.

(* ================================================================== *)
(** ** TransactionDetailsScene.js: the recipient addresses *)
(* ================================================================== *)

Import TransactionDetails.

Section Recipients.

Implicit Types (targets : list (option jsstring)).

Lemma joinWith_cons sep (x y : jsstring) (l : list jsstring) :
  joinWith sep (x :: y :: l) = x ++ sep ++ joinWith sep (y :: l).
Proof. cbn [joinWith flat_map]. now rewrite <- !app_assoc. Qed.

Lemma skipn_nth_error targets i t :
  nth_error targets i = Some t -> skipn i targets = t :: skipn (S i) targets.
Proof.
  revert i. induction targets as [|y targets IH]; intros [|i] H; try discriminate.
  - cbn in H. now injection H as ->.
  - cbn [nth_error] in H. cbn [skipn]. now apply IH.
Qed.

(** The loop appends what is left of the array, joined by newlines. *)
Lemma recipientsLoop_spec targets : forall fuel i acc,
  length targets - i <= fuel ->
  recipientsLoop fuel targets i acc
  = Ok (acc ++ joinWith newline (map template (skipn i targets))).
Proof.
  induction fuel as [|fuel IH]; intros i acc Hfuel; cbn [recipientsLoop].
  - rewrite skipn_all2 by lia. cbn. now rewrite app_nil_r.
  - destruct (Nat.ltb_spec i (length targets)) as [Hlt|Hge].
    + destruct (nth_error targets i) as [t|] eqn:Ht;
        [|apply nth_error_None in Ht; lia].
      rewrite IH by lia. rewrite (skipn_nth_error _ _ Ht), Nat.add_1_r.
      f_equal. rewrite <- !app_assoc. f_equal.
      destruct (Nat.ltb_spec (S i) (length targets)) as [Hmore|Hlast].
      * destruct (nth_error targets (S i)) as [t'|] eqn:Ht';
          [|apply nth_error_None in Ht'; lia].
        rewrite (skipn_nth_error _ _ Ht'). cbn [map]. now rewrite joinWith_cons.
      * rewrite skipn_all2 by lia. cbn. now rewrite !app_nil_r.
    + rewrite skipn_all2 by lia. cbn. now rewrite app_nil_r.
Qed.

(** X23: the recipient addresses shown for a transaction are the public
    addresses of its spend targets, in order, joined by single newlines,
    with no newline after the last one (an address that is missing prints as
    "undefined"); the loop never reads past the array, and a transaction
    without spend targets gives the empty text. *)
Theorem recipientsAddresses_joined :
  (forall targets,
      recipientsAddresses (Some targets)
      = Ok (joinWith newline (map template targets)))
  /\ recipientsAddresses None = Ok (js "")
  /\ (forall address, recipientsAddresses (Some [Some address]) = Ok address)
  /\ (forall first second,
        recipientsAddresses (Some [Some first; Some second])
        = Ok (first ++ newline ++ second)).
Proof.
  assert (H : forall targets,
    recipientsAddresses (Some targets) = Ok (joinWith newline (map template targets))).
  { intros targets. unfold recipientsAddresses.
    rewrite recipientsLoop_spec by lia. reflexivity. }
  repeat split.
  - exact H.
  - intros address. rewrite H. cbn. now rewrite app_nil_r.
  - intros first second. rewrite H. cbn. now rewrite !app_nil_r.
Qed.

End Recipients.

Section ExchangeAddresses.

Implicit Types (targets : list (option jsstring)) (nl : jsstring).

Lemma exchangeEntries_joined nl targets : forall index len,
  index + length targets = len ->
  joinWith (js ",") (exchangeEntries nl len index targets)
  = joinWith (nl ++ js ",") (map template targets).
Proof.
  induction targets as [|t targets IH]; intros index len Hlen; [reflexivity|].
  destruct targets as [|t' targets].
  - cbn [exchangeEntries length] in *.
    replace (index + 1 =? len) with true by (symmetry; apply Nat.eqb_eq; lia).
    cbn. now rewrite !app_nil_r.
  - cbn [length] in Hlen.
    specialize (IH (index + 1) len ltac:(cbn [length]; lia)).
    cbn [exchangeEntries map] in *.
    replace (index + 1 =? len) with false by (symmetry; apply Nat.eqb_neq; lia).
    cbn [negb]. rewrite !joinWith_cons, <- !app_assoc.
    do 3 f_equal. exact IH.
Qed.

(** X24: in the exchange details the addresses are joined through the
    array's toString, which puts a ',' between entries that already end in
    the newline: every address after the first follows a newline and a
    comma (two targets a, b give a, newline, ",", b), unlike the recipient
    addresses of render. *)
Theorem exchangeAddresses_comma_after_newline :
  (forall targets nl,
      exchangeAddresses targets nl = joinWith (nl ++ js ",") (map template targets))
  /\ (forall a b nl,
        exchangeAddresses [Some a; Some b] nl = a ++ nl ++ js "," ++ b)
  /\ (forall a b,
        recipientsAddresses (Some [Some a; Some b]) = Ok (a ++ newline ++ b)).
Proof.
  assert (H : forall targets nl,
    exchangeAddresses targets nl = joinWith (nl ++ js ",") (map template targets)).
  { intros targets nl. unfold exchangeAddresses, arrayToString.
    destruct targets as [|t targets]; [reflexivity|].
    cbn [length Nat.ltb Nat.leb].
    now apply exchangeEntries_joined. }
  repeat split.
  - exact H.
  - intros a b nl. rewrite H. cbn. now rewrite app_nil_r, <- !app_assoc.
  - intros a b. unfold recipientsAddresses. rewrite recipientsLoop_spec by lia.
    cbn. now rewrite !app_nil_r.
Qed.

End ExchangeAddresses.
